(** * QuickWs: a reconnecting WebSocket wrapper (src/lib/index.ts)

    Shallow embedding of the class [QuickWs] and of the part of the browser
    host it talks to (the table of WebSocket objects, the table of pending
    timeouts, the stream of [Math.random] draws), followed by the properties
    of the reconnection state machine.

    Conventions of the embedding.
    - JavaScript [number] fields hold integers here and are modelled as [Z].
    - A WebSocket object is identified by its index in the host's table of
      sockets; a timeout by the identifier [setTimeout] returned.
    - User callbacks ([onConnectionEstablished], ...) and the two log sinks
      are opaque: a registered callback is a name, and calling it appends an
      entry to the host's [trace].  Every handler of the source calls the
      user callback in tail position, so a callback that re-enters the
      object ([close()] from a message handler) is the same as the host
      issuing that call next.
    - The four listeners that [_reopenSocket] registers are the same four
      closures for every socket, closed over [wsUri]; the socket's [url] is
      that captured value.  Likewise the only timeout callback ever passed to
      [setTimeout] is [() => { this._retryTimer = null; this._reopenSocket(wsUri) }],
      so a pending timeout records the captured [wsUri].
    - [Math.random()] returns a multiple of [2^-53] in [[0,1)]; a draw is the
      integer numerator [rnd] with [0 <= rnd < 2^53].  [_getRandomInt] is
      written with exact arithmetic; for the bounds the class passes,
      [(-2, 2)], the binary64 evaluation of [rnd * (max - min) + min] is
      exact as well, and every property below uses it at these bounds only
      (for other bounds binary64 rounding can give another result).
    - [WebSocket.close(code, reason)] throws [InvalidAccessError] unless
      [code] is 1000 or lies in 3000..4999, and [SyntaxError] when [reason]
      is longer than 123 bytes; the class does not catch it.  A method of the
      class has no return value: an exception that leaves it is recorded in
      the trace ([EThrow]).  An address passed to [connect] is taken to be
      one [new WebSocket] accepts.
    - Text of log messages is kept as structured data ([LogMsg]). *)

From Stdlib Require Import ZArith List String Bool Lia.
Import ListNotations.
Local Open Scope Z_scope.

(** ** Host side: sockets, timeouts, observable trace *)

Definition handle := nat.
Definition timer_id := nat.
Definition callback := nat.

Inductive ReadyState := CONNECTING | OPEN | CLOSING | CLOSED.

Record WebSocket := mkWebSocket { url : string; readyState : ReadyState }.

Record Timeout := mkTimeout { delay_ms : Z; reopen_uri : string }.

Inductive LogMsg :=
| MsgAttempt (cur max : Z) (wsUri : string)
| MsgError
| MsgClosed
| MsgExceeded (max : Z)
| MsgNextRetry (waitTimeSecs : Z).

Inductive DOMException := InvalidAccessError | SyntaxError.

Inductive Effect :=
| ENewWebSocket (h : handle) (wsUri : string)
| ESocketClose (h : handle) (code : Z) (reason : string)
| ESetTimeout (t : timer_id) (ms : Z)
| EClearTimeout (t : timer_id)
| ELogDebug (cb : callback) (m : LogMsg)
| ELogError (cb : callback) (m : LogMsg)
| EEstablished (cb : callback) (ws : option handle)
| EBroken (cb : callback)
| EMessage (cb : callback) (ws : option handle) (msg : string)
| EThrow (e : DOMException).

(** ** The object *)

Record QuickWs := mkQuickWs {
  _socket : option handle;
  _retryTimer : option timer_id;
  _retryTimeoutBase : Z;
  _retryTimeoutMax : Z;
  _retryTimeoutIncrement : Z;
  _retryTimeoutJitter : Z;
  _currentRetry : Z;
  _maxRetries : Z;
  _onConnectionEstablished : option callback;
  _onConnectionBroken : option callback;
  _onMessageReceived : option callback;
  logDebugCallback : option callback;
  logErrorCallback : option callback
}.

(** The object together with the host it runs in.  [trace] is newest first. *)
Record Config := mkConfig {
  self : QuickWs;
  sockets : list WebSocket;
  timers : list (timer_id * Timeout);
  nextTimer : timer_id;
  trace : list Effect
}.

(** Field updates. *)
Definition set_socket (v : option handle) (q : QuickWs) : QuickWs :=
  mkQuickWs v (_retryTimer q) (_retryTimeoutBase q) (_retryTimeoutMax q)
    (_retryTimeoutIncrement q) (_retryTimeoutJitter q) (_currentRetry q)
    (_maxRetries q) (_onConnectionEstablished q) (_onConnectionBroken q)
    (_onMessageReceived q) (logDebugCallback q) (logErrorCallback q).

Definition set_retryTimer (v : option timer_id) (q : QuickWs) : QuickWs :=
  mkQuickWs (_socket q) v (_retryTimeoutBase q) (_retryTimeoutMax q)
    (_retryTimeoutIncrement q) (_retryTimeoutJitter q) (_currentRetry q)
    (_maxRetries q) (_onConnectionEstablished q) (_onConnectionBroken q)
    (_onMessageReceived q) (logDebugCallback q) (logErrorCallback q).

Definition set_timeouts (base max increment jitter : Z) (q : QuickWs) : QuickWs :=
  mkQuickWs (_socket q) (_retryTimer q) base max increment jitter
    (_currentRetry q) (_maxRetries q) (_onConnectionEstablished q)
    (_onConnectionBroken q) (_onMessageReceived q) (logDebugCallback q)
    (logErrorCallback q).

Definition set_currentRetry (v : Z) (q : QuickWs) : QuickWs :=
  mkQuickWs (_socket q) (_retryTimer q) (_retryTimeoutBase q)
    (_retryTimeoutMax q) (_retryTimeoutIncrement q) (_retryTimeoutJitter q) v
    (_maxRetries q) (_onConnectionEstablished q) (_onConnectionBroken q)
    (_onMessageReceived q) (logDebugCallback q) (logErrorCallback q).

Definition set_onConnectionEstablished (v : option callback) (q : QuickWs) : QuickWs :=
  mkQuickWs (_socket q) (_retryTimer q) (_retryTimeoutBase q)
    (_retryTimeoutMax q) (_retryTimeoutIncrement q) (_retryTimeoutJitter q)
    (_currentRetry q) (_maxRetries q) v (_onConnectionBroken q)
    (_onMessageReceived q) (logDebugCallback q) (logErrorCallback q).

Definition set_onConnectionBroken (v : option callback) (q : QuickWs) : QuickWs :=
  mkQuickWs (_socket q) (_retryTimer q) (_retryTimeoutBase q)
    (_retryTimeoutMax q) (_retryTimeoutIncrement q) (_retryTimeoutJitter q)
    (_currentRetry q) (_maxRetries q) (_onConnectionEstablished q) v
    (_onMessageReceived q) (logDebugCallback q) (logErrorCallback q).

Definition set_onMessageReceived (v : option callback) (q : QuickWs) : QuickWs :=
  mkQuickWs (_socket q) (_retryTimer q) (_retryTimeoutBase q)
    (_retryTimeoutMax q) (_retryTimeoutIncrement q) (_retryTimeoutJitter q)
    (_currentRetry q) (_maxRetries q) (_onConnectionEstablished q)
    (_onConnectionBroken q) v (logDebugCallback q) (logErrorCallback q).

Definition set_logDebugCallback (v : option callback) (q : QuickWs) : QuickWs :=
  mkQuickWs (_socket q) (_retryTimer q) (_retryTimeoutBase q)
    (_retryTimeoutMax q) (_retryTimeoutIncrement q) (_retryTimeoutJitter q)
    (_currentRetry q) (_maxRetries q) (_onConnectionEstablished q)
    (_onConnectionBroken q) (_onMessageReceived q) v (logErrorCallback q).

Definition set_logErrorCallback (v : option callback) (q : QuickWs) : QuickWs :=
  mkQuickWs (_socket q) (_retryTimer q) (_retryTimeoutBase q)
    (_retryTimeoutMax q) (_retryTimeoutIncrement q) (_retryTimeoutJitter q)
    (_currentRetry q) (_maxRetries q) (_onConnectionEstablished q)
    (_onConnectionBroken q) (_onMessageReceived q) (logDebugCallback q) v.

Definition with_self (f : QuickWs -> QuickWs) (c : Config) : Config :=
  mkConfig (f (self c)) (sockets c) (timers c) (nextTimer c) (trace c).

Definition emit (e : Effect) (c : Config) : Config :=
  mkConfig (self c) (sockets c) (timers c) (nextTimer c) (e :: trace c).

(** *** Host primitives *)

(** [new WebSocket(wsUri)]: a new object in state CONNECTING. *)
Definition new_WebSocket (wsUri : string) (c : Config) : handle * Config :=
  let h := List.length (sockets c) in
  (h, mkConfig (self c) (sockets c ++ [mkWebSocket wsUri CONNECTING])
        (timers c) (nextTimer c) (ENewWebSocket h wsUri :: trace c)).

Fixpoint set_readyState (h : handle) (s : ReadyState) (l : list WebSocket)
  : list WebSocket :=
  match l, h with
  | [], _ => []
  | w :: l', O => mkWebSocket (url w) s :: l'
  | w :: l', S h' => w :: set_readyState h' s l'
  end.

Definition with_sockets (f : list WebSocket -> list WebSocket) (c : Config) : Config :=
  mkConfig (self c) (f (sockets c)) (timers c) (nextTimer c) (trace c).

(** The close codes and reasons [WebSocket.close] accepts. *)
Definition valid_close_code (code : Z) : bool :=
  (code =? 1000) || ((3000 <=? code) && (code <=? 4999)).

Definition valid_close_reason (reason : string) : bool :=
  (String.length reason <=? 123)%nat.

Definition close_accepts (code : Z) (reason : string) : bool :=
  valid_close_code code && valid_close_reason reason.

(** [ws.close(code, reason)]: throws on a code or a reason it does not
    accept, before anything else happens; otherwise starts the closing
    handshake of a socket that is connecting or open and does nothing on one
    that is closing or closed.  The [close] event is delivered later by the
    host. *)
Definition WebSocket_close (h : handle) (code : Z) (reason : string) (c : Config)
  : DOMException + Config :=
  if negb (valid_close_code code) then inl InvalidAccessError
  else if negb (valid_close_reason reason) then inl SyntaxError
  else
    let c := emit (ESocketClose h code reason) c in
    inr match nth_error (sockets c) h with
        | Some w =>
            match readyState w with
            | CONNECTING | OPEN => with_sockets (set_readyState h CLOSING) c
            | CLOSING | CLOSED => c
            end
        | None => c
        end.

(** [setTimeout(cb, ms)] with the callback that reopens [wsUri]. *)
Definition setTimeout (wsUri : string) (ms : Z) (c : Config) : timer_id * Config :=
  let t := nextTimer c in
  (t, mkConfig (self c) (sockets c) (timers c ++ [(t, mkTimeout ms wsUri)])
        (S t) (ESetTimeout t ms :: trace c)).

Fixpoint remove_timer (t : timer_id) (l : list (timer_id * Timeout))
  : list (timer_id * Timeout) :=
  match l with
  | [] => []
  | (t', x) :: l' =>
      if Nat.eqb t t' then remove_timer t l' else (t', x) :: remove_timer t l'
  end.

Fixpoint find_timer (t : timer_id) (l : list (timer_id * Timeout)) : option Timeout :=
  match l with
  | [] => None
  | (t', x) :: l' => if Nat.eqb t t' then Some x else find_timer t l'
  end.

Definition clearTimeout (t : timer_id) (c : Config) : Config :=
  mkConfig (self c) (sockets c) (remove_timer t (timers c)) (nextTimer c)
    (EClearTimeout t :: trace c).

(** [Math.ceil] and [Math.floor] on an integer-valued number. *)
Definition Math_ceil (x : Z) : Z := x.
Definition Math_floor (x : Z) : Z := x.

Definition RAND_DEN : Z := 2 ^ 53.

(** A draw of [Math.random()] is [rnd / 2^53]. *)
Definition valid_draw (rnd : Z) : Prop := 0 <= rnd < RAND_DEN.
Definition valid_drawb (rnd : Z) : bool := (0 <=? rnd) && (rnd <? RAND_DEN).

(** ** Methods of the class, in the order of the source *)

Definition _logDebug (m : LogMsg) (c : Config) : Config :=
  match logDebugCallback (self c) with
  | Some cb => emit (ELogDebug cb m) c
  | None => c
  end.

Definition _logError (m : LogMsg) (c : Config) : Config :=
  match logErrorCallback (self c) with
  | Some cb => emit (ELogError cb m) c
  | None => c
  end.

(** [constructor(maxRetries = 5)] with the field initialisers. *)
Definition constructor (maxRetries : Z) : QuickWs :=
  mkQuickWs None None 2 30 2 2 0 maxRetries None None None None None.

Definition _resetRetries (c : Config) : Config :=
  let c := with_self (set_timeouts 2 30 2 2) c in
  let c := with_self (set_currentRetry 0) c in
  match _retryTimer (self c) with
  | Some t => with_self (set_retryTimer None) (clearTimeout t c)
  | None => c
  end.

Definition _reopenSocket (wsUri : string) (c : Config) : Config :=
  let c := with_self (fun q => set_currentRetry (_currentRetry q + 1) q) c in
  let c := _logDebug (MsgAttempt (_currentRetry (self c)) (_maxRetries (self c)) wsUri) c in
  let '(h, c) := new_WebSocket wsUri c in
  with_self (set_socket (Some h)) c.

Definition connect (wsUri : string) (c : Config) : Config :=
  _reopenSocket wsUri (_resetRetries c).

(** When [this._socket.close(code, reason)] throws, the exception leaves
    [close] before [this._socket = null] is reached. *)
Definition close (code : Z) (reason : string) (c : Config) : Config :=
  match _socket (self c) with
  | Some h =>
      let c := _resetRetries c in
      match WebSocket_close h code reason c with
      | inr c => with_self (set_socket None) c
      | inl e => emit (EThrow e) c
      end
  | None => c
  end.

Definition onConnectionEstablished (cb : callback) (c : Config) : Config :=
  with_self (set_onConnectionEstablished (Some cb)) c.

Definition onConnectionBroken (cb : callback) (c : Config) : Config :=
  with_self (set_onConnectionBroken (Some cb)) c.

Definition onMessageReceived (cb : callback) (c : Config) : Config :=
  with_self (set_onMessageReceived (Some cb)) c.

(** [Math.floor(Math.random() * (max - min) + min)] with
    [Math.random() = rnd / 2^53], in exact arithmetic (see the conventions). *)
Definition _getRandomInt (rnd : Z) (min max : Z) : Z :=
  let min := Math_ceil min in
  let max := Math_floor max in
  (rnd * (max - min) + min * RAND_DEN) / RAND_DEN.

(** The [const waitTimeSecs] of [_retryConnectionLogic]. *)
Definition waitTimeSecs (q : QuickWs) (rnd : Z) : Z :=
  Z.min (_retryTimeoutBase q
         + _retryTimeoutIncrement q * _currentRetry q
         + _getRandomInt rnd (- _retryTimeoutJitter q) (_retryTimeoutJitter q))
        (_retryTimeoutMax q).

(** [_retryConnectionLogic(() => this._reopenSocket(wsUri))]; [rnd] is the
    draw [Math.random()] returns if the delay is computed. *)
Definition _retryConnectionLogic (wsUri : string) (rnd : Z) (c : Config) : Config :=
  if _currentRetry (self c) >=? _maxRetries (self c) then
    let c := _logError (MsgExceeded (_maxRetries (self c))) c in
    match _onConnectionBroken (self c) with
    | Some cb => emit (EBroken cb) c
    | None => c
    end
  else
    let w := waitTimeSecs (self c) rnd in
    let c := _logDebug (MsgNextRetry w) c in
    let '(t, c) := setTimeout wsUri (w * 1000) c in
    with_self (set_retryTimer (Some t)) c.

(** The four listeners registered by [_reopenSocket(wsUri)]. *)
Definition on_open (c : Config) : Config :=
  let c := _resetRetries c in
  match _onConnectionEstablished (self c) with
  | Some cb => emit (EEstablished cb (_socket (self c))) c
  | None => c
  end.

Definition on_error (c : Config) : Config :=
  _logError MsgError c.

Definition on_close (wsUri : string) (rnd : Z) (c : Config) : Config :=
  let c := _logDebug MsgClosed c in
  _retryConnectionLogic wsUri rnd c.

Definition on_message (data : string) (c : Config) : Config :=
  match _onMessageReceived (self c) with
  | Some cb => emit (EMessage cb (_socket (self c)) data) c
  | None => c
  end.

(** The timeout callback [() => { this._retryTimer = null; callback(); }]. *)
Definition on_timeout (wsUri : string) (c : Config) : Config :=
  _reopenSocket wsUri (with_self (set_retryTimer None) c).

(** ** Executions *)

(** What can happen to the object: a call of its public interface, or an
    event dispatched by the host. *)
Inductive Input :=
| Connect (wsUri : string)
| Close (code : Z) (reason : string)
| OnConnectionEstablished (cb : callback)
| OnConnectionBroken (cb : callback)
| OnMessageReceived (cb : callback)
| SetLogDebugCallback (cb : option callback)
| SetLogErrorCallback (cb : option callback)
| EvOpen (h : handle)
| EvError (h : handle)
| EvClose (h : handle) (rnd : Z)
| EvMessage (h : handle) (data : string)
| EvTimeout (t : timer_id).

Definition is_live (w : WebSocket) : bool :=
  match readyState w with CLOSED => false | _ => true end.

(** One step.  [None] when the host cannot dispatch the event: [open] only
    on a connecting socket, [message] only on an open one, [error] and
    [close] only on a socket that is not closed yet (a socket delivers
    [close] once), a timeout only while it is pending. *)
Definition step (i : Input) (c : Config) : option Config :=
  match i with
  | Connect wsUri => Some (connect wsUri c)
  | Close code reason => Some (close code reason c)
  | OnConnectionEstablished cb => Some (onConnectionEstablished cb c)
  | OnConnectionBroken cb => Some (onConnectionBroken cb c)
  | OnMessageReceived cb => Some (onMessageReceived cb c)
  | SetLogDebugCallback cb => Some (with_self (set_logDebugCallback cb) c)
  | SetLogErrorCallback cb => Some (with_self (set_logErrorCallback cb) c)
  | EvOpen h =>
      match nth_error (sockets c) h with
      | Some w =>
          match readyState w with
          | CONNECTING => Some (on_open (with_sockets (set_readyState h OPEN) c))
          | _ => None
          end
      | None => None
      end
  | EvError h =>
      match nth_error (sockets c) h with
      | Some w => if is_live w then Some (on_error c) else None
      | None => None
      end
  | EvClose h rnd =>
      match nth_error (sockets c) h with
      | Some w =>
          if is_live w && valid_drawb rnd
          then Some (on_close (url w) rnd (with_sockets (set_readyState h CLOSED) c))
          else None
      | None => None
      end
  | EvMessage h data =>
      match nth_error (sockets c) h with
      | Some w =>
          match readyState w with
          | OPEN => Some (on_message data c)
          | _ => None
          end
      | None => None
      end
  | EvTimeout t =>
      match find_timer t (timers c) with
      | Some x =>
          Some (on_timeout (reopen_uri x)
                  (mkConfig (self c) (sockets c) (remove_timer t (timers c))
                     (nextTimer c) (trace c)))
      | None => None
      end
  end.

Fixpoint run (inputs : list Input) (c : Config) : option Config :=
  match inputs with
  | [] => Some c
  | i :: rest =>
      match step i c with
      | Some c' => run rest c'
      | None => None
      end
  end.

(** [new QuickWs(maxRetries)] in a fresh host. *)
Definition boot (maxRetries : Z) : Config :=
  mkConfig (constructor maxRetries) [] [] 1%nat [].

Inductive reachable : Config -> Prop :=
| reach_boot : forall maxRetries, reachable (boot maxRetries)
| reach_step : forall i c c', reachable c -> step i c = Some c' -> reachable c'.

(** Observations on a configuration. *)
Definition live_handles (c : Config) : nat :=
  List.length (filter is_live (sockets c)).

Definition pending_timers (c : Config) : nat := List.length (timers c).

Definition opened_transports (c : Config) : nat := List.length (sockets c).

Definition is_broken_call (e : Effect) : bool :=
  match e with EBroken _ => true | _ => false end.

Definition broken_calls (c : Config) : nat :=
  List.length (filter is_broken_call (trace c)).

(** The backoff constants of the field initialisers and of [_resetRetries]. *)
Definition default_timeouts (q : QuickWs) : Prop :=
  _retryTimeoutBase q = 2 /\ _retryTimeoutMax q = 30 /\
  _retryTimeoutIncrement q = 2 /\ _retryTimeoutJitter q = 2.

(** *** Scenario pieces

    What the host does to the connection's current attempt: the attempt
    terminates (a [close] event on the socket in [_socket]), the attempt
    opens, the recorded retry timeout fires. *)
Definition attempt_fails (rnd : Z) (c : Config) : option Config :=
  match _socket (self c) with
  | Some h => step (EvClose h rnd) c
  | None => None
  end.

Definition attempt_opens (c : Config) : option Config :=
  match _socket (self c) with
  | Some h => step (EvOpen h) c
  | None => None
  end.

Definition timer_fires (c : Config) : option Config :=
  match _retryTimer (self c) with
  | Some t => step (EvTimeout t) c
  | None => None
  end.

Definition fail_and_retry (rnd : Z) (c : Config) : option Config :=
  match attempt_fails rnd c with
  | Some c' => timer_fires c'
  | None => None
  end.

(** [length rnds] attempts that fail, each followed by its retry. *)
Fixpoint failed_attempts (rnds : list Z) (c : Config) : option Config :=
  match rnds with
  | [] => Some c
  | r :: rs =>
      match fail_and_retry r c with
      | Some c' => failed_attempts rs c'
      | None => None
      end
  end.

(** A run of [length rnds + 1] consecutive [close] events, none of the
    attempts in between opening. *)
Definition closed_streak (rnds : list Z) (rnd : Z) (c : Config) : option Config :=
  match failed_attempts rnds c with
  | Some c' => attempt_fails rnd c'
  | None => None
  end.

(** The delay of the timeout that [_retryTimer] records, if it is pending. *)
Definition scheduled_delay (c : Config) : option Z :=
  match _retryTimer (self c) with
  | Some t => option_map delay_ms (find_timer t (timers c))
  | None => None
  end.

(** Identifiers of pending timeouts are below the next one [setTimeout] hands out. *)
Definition timers_fresh (c : Config) : Prop :=
  Forall (fun p => (fst p < nextTimer c)%nat) (timers c).

Definition is_host_event (i : Input) : bool :=
  match i with
  | EvOpen _ | EvError _ | EvClose _ _ | EvMessage _ _ | EvTimeout _ => true
  | _ => false
  end.

(** Nothing can happen any more unless the caller acts. *)
Definition quiescent (c : Config) : Prop :=
  forall i, is_host_event i = true -> step i c = None.

(** Executions in which [connect] is only called while no socket opened
    earlier is still live. *)
Inductive disciplined : Config -> Prop :=
| disc_boot : forall maxRetries, disciplined (boot maxRetries)
| disc_step : forall i c c',
    disciplined c ->
    (forall wsUri, i = Connect wsUri -> live_handles c = 0%nat) ->
    step i c = Some c' ->
    disciplined c'.

(** Either no timeout is pending and at most one socket is live, or the one
    pending timeout is the recorded one and no socket is live. *)
Definition single_track (c : Config) : Prop :=
  (timers c = [] /\ _retryTimer (self c) = None /\ (live_handles c <= 1)%nat) \/
  (exists t x, timers c = [(t, x)] /\ _retryTimer (self c) = Some t /\
               live_handles c = 0%nat).

(** *** Observations on an execution *)

Definition is_established_call (e : Effect) : bool :=
  match e with EEstablished _ _ => true | _ => false end.

Definition is_message_call (e : Effect) : bool :=
  match e with EMessage _ _ _ => true | _ => false end.

Definition is_log_call (e : Effect) : bool :=
  match e with ELogDebug _ _ | ELogError _ _ => true | _ => false end.

Definition established_calls (c : Config) : nat :=
  List.length (filter is_established_call (trace c)).

Definition message_calls (c : Config) : nat :=
  List.length (filter is_message_call (trace c)).



Definition is_EvOpen (i : Input) : bool :=
  match i with EvOpen _ => true | _ => false end.

Definition is_EvClose (i : Input) : bool :=
  match i with EvClose _ _ => true | _ => false end.

Definition is_EvMessage (i : Input) : bool :=
  match i with EvMessage _ _ => true | _ => false end.

Definition count_inputs (p : Input -> bool) (inputs : list Input) : nat :=
  List.length (filter p inputs).

(** The addresses the caller passed to [connect]. *)
Definition connect_uris (inputs : list Input) : list string :=
  flat_map (fun i => match i with Connect wsUri => [wsUri] | _ => [] end) inputs.

(** Calls that register an application callback. *)
Definition is_registration (i : Input) : bool :=
  match i with
  | OnConnectionEstablished _ | OnConnectionBroken _ | OnMessageReceived _ => true
  | _ => false
  end.

(** The three application callbacks of an object. *)
Definition callbacks (q : QuickWs)
  : option callback * option callback * option callback :=
  (_onConnectionEstablished q, _onConnectionBroken q, _onMessageReceived q).

(** Every socket and every pending timeout targets an address of [U]. *)
Definition uris_within (U : list string) (c : Config) : Prop :=
  Forall (fun w => In (url w) U) (sockets c) /\
  Forall (fun p => In (reopen_uri (snd p)) U) (timers c).

(** The configuration with both log sinks unset and the log entries erased. *)
Definition without_logs (c : Config) : Config :=
  mkConfig (set_logErrorCallback None (set_logDebugCallback None (self c)))
    (sockets c) (timers c) (nextTimer c)
    (filter (fun e => negb (is_log_call e)) (trace c)).

(** The same input for an object whose log sinks stay unset. *)
Definition mute (i : Input) : Input :=
  match i with
  | SetLogDebugCallback _ => SetLogDebugCallback None
  | SetLogErrorCallback _ => SetLogErrorCallback None
  | _ => i
  end.

(** The handle and the timeout the object records exist in the host. *)
Definition handles_valid (c : Config) : Prop :=
  (forall h, _socket (self c) = Some h -> (h < List.length (sockets c))%nat) /\
  (forall t, _retryTimer (self c) = Some t -> (t < nextTimer c)%nat).

(** A socket that is connecting or open is the one in [_socket]. *)
Definition current_is_active (c : Config) : Prop :=
  forall h w, nth_error (sockets c) h = Some w ->
              readyState w = CONNECTING \/ readyState w = OPEN ->
              _socket (self c) = Some h.

(** Every pending timeout waits between 0 and 30 seconds, a whole number of
    seconds. *)
Definition delays_bounded (c : Config) : Prop :=
  Forall (fun p => exists s, 0 <= s <= 30 /\ delay_ms (snd p) = s * 1000)
         (timers c).

Definition is_socket_close_call (e : Effect) : bool :=
  match e with ESocketClose _ _ _ => true | _ => false end.

Definition is_set_timeout_call (e : Effect) : bool :=
  match e with ESetTimeout _ _ => true | _ => false end.

Definition is_Close (i : Input) : bool :=
  match i with Close _ _ => true | _ => false end.

Definition socket_close_calls (c : Config) : nat :=
  List.length (filter is_socket_close_call (trace c)).

Definition set_timeout_calls (c : Config) : nat :=
  List.length (filter is_set_timeout_call (trace c)).

(** * Properties *)

(** ** Arithmetic of the delay *)

Lemma valid_drawb_spec (rnd : Z) : valid_drawb rnd = true <-> valid_draw rnd.
Proof.
  unfold valid_drawb, valid_draw.
  rewrite andb_true_iff, Z.leb_le, Z.ltb_lt. tauto.
Qed.

Lemma RAND_DEN_pos : 0 < RAND_DEN.
Proof. reflexivity. Qed.

(** The jitter draw is an integer of the half-open interval [[-2, 2)]. *)
Lemma jitter_draw_range (rnd : Z) :
  valid_draw rnd -> -2 <= _getRandomInt rnd (-2) 2 < 2.
Proof.
  intros [H0 H1]. unfold _getRandomInt, Math_ceil, Math_floor.
  pose proof RAND_DEN_pos as Hd.
  rewrite Z.div_add by lia.
  assert (0 <= rnd * (2 - -2) / RAND_DEN < 2 - -2); [|lia].
  split.
  - apply Z.div_pos; nia.
  - apply Z.div_lt_upper_bound; nia.
Qed.

Lemma waitTimeSecs_default (q : QuickWs) (rnd : Z) :
  default_timeouts q ->
  waitTimeSecs q rnd = Z.min (2 + 2 * _currentRetry q + _getRandomInt rnd (-2) 2) 30.
Proof.
  intros (Hb & Hm & Hi & Hj). unfold waitTimeSecs.
  rewrite Hb, Hm, Hi, Hj. reflexivity.
Qed.

(** ** Frame facts of the methods *)

Arguments valid_close_code : simpl never.
Arguments valid_close_reason : simpl never.

Ltac unfold_methods :=
  unfold step, connect, close, on_open, on_error, on_close, on_message,
    on_timeout, _retryConnectionLogic, _reopenSocket, _resetRetries,
    _logDebug, _logError, WebSocket_close, new_WebSocket, setTimeout,
    clearTimeout, onConnectionEstablished, onConnectionBroken,
    onMessageReceived, with_self, with_sockets, emit in *.

Ltac break_match :=
  match goal with
  | |- context [match ?x with _ => _ end] => destruct x eqn:?
  | H : context [match ?x with _ => _ end] |- _ => destruct x eqn:?
  end.

Ltac step_cases :=
  unfold_methods; cbn in *;
  repeat (break_match; cbn in *; try discriminate);
  repeat match goal with
         | H : Some _ = Some _ |- _ => inversion H; clear H; subst
         | H : inr _ = inr _ |- _ => inversion H; clear H; subst
         | H : inl _ = inl _ |- _ => inversion H; clear H; subst
         end;
  cbn in *.

Lemma _resetRetries_self (c : Config) :
  self (_resetRetries c) =
  set_retryTimer None (set_currentRetry 0 (set_timeouts 2 30 2 2 (self c))).
Proof.
  destruct c as [[s t b m i j k n e br ms ld le] ss ts nt tr].
  unfold _resetRetries, with_self, clearTimeout; cbn.
  destruct t; reflexivity.
Qed.

Lemma _resetRetries_sockets (c : Config) :
  sockets (_resetRetries c) = sockets c.
Proof. unfold _resetRetries; cbn. destruct (_retryTimer (self c)); reflexivity. Qed.

Lemma _resetRetries_timers (c : Config) :
  timers (_resetRetries c) =
  match _retryTimer (self c) with
  | Some t => remove_timer t (timers c)
  | None => timers c
  end.
Proof. unfold _resetRetries; cbn. destruct (_retryTimer (self c)); reflexivity. Qed.

Lemma step_default_timeouts (i : Input) (c c' : Config) :
  step i c = Some c' -> default_timeouts (self c) -> default_timeouts (self c').
Proof.
  unfold default_timeouts. intros Hs H.
  destruct i; step_cases; auto.
Qed.

Lemma step_currentRetry_nonneg (i : Input) (c c' : Config) :
  step i c = Some c' -> 0 <= _currentRetry (self c) -> 0 <= _currentRetry (self c').
Proof.
  intros Hs H.
  destruct i; step_cases; lia.
Qed.

Lemma step_maxRetries (i : Input) (c c' : Config) :
  step i c = Some c' -> _maxRetries (self c') = _maxRetries (self c).
Proof.
  intros Hs.
  destruct i; step_cases; reflexivity.
Qed.

Lemma reachable_default_timeouts (c : Config) :
  reachable c -> default_timeouts (self c).
Proof.
  induction 1 as [m | i c c' _ IH Hs].
  - unfold default_timeouts; cbn; auto.
  - eapply step_default_timeouts; eauto.
Qed.

Lemma reachable_currentRetry_nonneg (c : Config) :
  reachable c -> 0 <= _currentRetry (self c).
Proof.
  induction 1 as [m | i c c' _ IH Hs].
  - cbn; lia.
  - eapply step_currentRetry_nonneg; eauto.
Qed.

Ltac destruct_config c :=
  let s := fresh "s" in let t := fresh "t" in let b := fresh "b" in
  let mx := fresh "mx" in let inc := fresh "inc" in let j := fresh "j" in
  let k := fresh "k" in let m := fresh "m" in let e := fresh "e" in
  let br := fresh "br" in let ms := fresh "ms" in let ld := fresh "ld" in
  let le := fresh "le" in let ss := fresh "ss" in let ts := fresh "ts" in
  let nt := fresh "nt" in let tr := fresh "tr" in
  destruct c as [[s t b mx inc j k m e br ms ld le] ss ts nt tr]; cbn in *.

Lemma geb_false (k m : Z) : k < m -> (k >=? m) = false.
Proof. intros. rewrite Z.geb_leb. apply Z.leb_gt. assumption. Qed.

Lemma geb_true (k m : Z) : m <= k -> (k >=? m) = true.
Proof. intros. rewrite Z.geb_leb. apply Z.leb_le. assumption. Qed.

Lemma step_close_retry (c : Config) (h : handle) (w : WebSocket) (rnd : Z) :
  nth_error (sockets c) h = Some w -> is_live w = true -> valid_draw rnd ->
  _currentRetry (self c) < _maxRetries (self c) ->
  exists c',
    step (EvClose h rnd) c = Some c' /\
    self c' = set_retryTimer (Some (nextTimer c)) (self c) /\
    sockets c' = set_readyState h CLOSED (sockets c) /\
    timers c' = timers c ++
      [(nextTimer c, mkTimeout (waitTimeSecs (self c) rnd * 1000) (url w))] /\
    nextTimer c' = S (nextTimer c) /\
    broken_calls c' = broken_calls c.
Proof.
  intros Hn Hl Hv Hk. apply valid_drawb_spec in Hv.
  unfold step. rewrite Hn, Hl, Hv. cbn [andb].
  eexists; split; [reflexivity|].
  destruct_config c.
  unfold on_close, _retryConnectionLogic, _logDebug, broken_calls.
  destruct ld; cbn; rewrite (geb_false _ _ Hk); cbn; auto 10.
Qed.

Lemma step_close_broken (c : Config) (h : handle) (w : WebSocket) (rnd : Z) :
  nth_error (sockets c) h = Some w -> is_live w = true -> valid_draw rnd ->
  _maxRetries (self c) <= _currentRetry (self c) ->
  exists c',
    step (EvClose h rnd) c = Some c' /\
    self c' = self c /\
    sockets c' = set_readyState h CLOSED (sockets c) /\
    timers c' = timers c /\
    nextTimer c' = nextTimer c /\
    broken_calls c' =
      match _onConnectionBroken (self c) with
      | Some _ => S (broken_calls c)
      | None => broken_calls c
      end.
Proof.
  intros Hn Hl Hv Hk. apply valid_drawb_spec in Hv.
  unfold step. rewrite Hn, Hl, Hv. cbn [andb].
  eexists; split; [reflexivity|].
  destruct_config c.
  unfold on_close, _retryConnectionLogic, _logDebug, _logError, broken_calls.
  destruct ld, le, br; cbn; rewrite (geb_true _ _ Hk); cbn; auto 10.
Qed.

Lemma step_timeout (c : Config) (t : timer_id) (x : Timeout) :
  find_timer t (timers c) = Some x ->
  exists c',
    step (EvTimeout t) c = Some c' /\
    self c' = set_socket (Some (List.length (sockets c)))
                (set_currentRetry (_currentRetry (self c) + 1)
                   (set_retryTimer None (self c))) /\
    sockets c' = sockets c ++ [mkWebSocket (reopen_uri x) CONNECTING] /\
    timers c' = remove_timer t (timers c) /\
    nextTimer c' = nextTimer c /\
    broken_calls c' = broken_calls c.
Proof.
  intros Hf. unfold step. rewrite Hf.
  eexists; split; [reflexivity|].
  destruct_config c.
  unfold on_timeout, _reopenSocket, _logDebug, broken_calls.
  destruct ld; cbn; auto 10.
Qed.

Lemma step_open (c : Config) (h : handle) (w : WebSocket) :
  nth_error (sockets c) h = Some w -> readyState w = CONNECTING ->
  exists c',
    step (EvOpen h) c = Some c' /\
    self c' = set_retryTimer None
                (set_currentRetry 0 (set_timeouts 2 30 2 2 (self c))) /\
    sockets c' = set_readyState h OPEN (sockets c) /\
    timers c' = match _retryTimer (self c) with
                | Some t => remove_timer t (timers c)
                | None => timers c
                end /\
    nextTimer c' = nextTimer c /\
    broken_calls c' = broken_calls c.
Proof.
  intros Hn Hr. unfold step. rewrite Hn, Hr.
  eexists; split; [reflexivity|].
  destruct_config c.
  unfold on_open, _resetRetries, broken_calls.
  destruct t, e; cbn; auto 10.
Qed.

Lemma connect_spec (wsUri : string) (c : Config) :
  self (connect wsUri c) =
    set_socket (Some (List.length (sockets c)))
      (set_currentRetry 1
         (set_retryTimer None (set_timeouts 2 30 2 2 (self c)))) /\
  sockets (connect wsUri c) = sockets c ++ [mkWebSocket wsUri CONNECTING] /\
  timers (connect wsUri c) = match _retryTimer (self c) with
                             | Some t => remove_timer t (timers c)
                             | None => timers c
                             end /\
  nextTimer (connect wsUri c) = nextTimer c /\
  broken_calls (connect wsUri c) = broken_calls c.
Proof.
  destruct_config c.
  unfold connect, _reopenSocket, _resetRetries, _logDebug, broken_calls.
  destruct t, ld; cbn; auto 10.
Qed.

(** ** Facts about the host tables *)

Lemma set_readyState_length (h : handle) (s : ReadyState) (l : list WebSocket) :
  List.length (set_readyState h s l) = List.length l.
Proof.
  revert h; induction l as [|w l IH]; intros [|h]; cbn; auto.
Qed.

Lemma nth_error_set_readyState_same (h : handle) (s : ReadyState)
      (l : list WebSocket) (w : WebSocket) :
  nth_error l h = Some w ->
  nth_error (set_readyState h s l) h = Some (mkWebSocket (url w) s).
Proof.
  revert h; induction l as [|x l IH]; intros [|h]; cbn; try discriminate.
  - intros [= ->]. reflexivity.
  - apply IH.
Qed.

Lemma nth_error_set_readyState_other (h h' : handle) (s : ReadyState)
      (l : list WebSocket) :
  h <> h' -> nth_error (set_readyState h s l) h' = nth_error l h'.
Proof.
  revert h h'; induction l as [|x l IH]; intros [|h] [|h'] Hne; cbn; auto;
    try contradiction.
Qed.

Lemma nth_error_snoc {A : Type} (l : list A) (x : A) :
  nth_error (l ++ [x]) (List.length l) = Some x.
Proof. induction l; cbn; auto. Qed.

Lemma find_timer_snoc (t : timer_id) (x : Timeout) (l : list (timer_id * Timeout)) :
  exists y, find_timer t (l ++ [(t, x)]) = Some y.
Proof.
  induction l as [|[t' z] l IH]; cbn.
  - rewrite Nat.eqb_refl. eauto.
  - destruct (Nat.eqb t t'); eauto.
Qed.

(** ** One failed attempt and its retry *)

Lemma fail_and_retry_spec (c : Config) (h : handle) (w : WebSocket) (rnd : Z) :
  _socket (self c) = Some h ->
  nth_error (sockets c) h = Some w -> is_live w = true -> valid_draw rnd ->
  _currentRetry (self c) < _maxRetries (self c) ->
  exists c' x,
    fail_and_retry rnd c = Some c' /\
    find_timer (nextTimer c)
      (timers c ++ [(nextTimer c,
                     mkTimeout (waitTimeSecs (self c) rnd * 1000) (url w))])
      = Some x /\
    self c' = set_socket (Some (List.length (sockets c)))
                (set_currentRetry (_currentRetry (self c) + 1)
                   (set_retryTimer None (self c))) /\
    sockets c' = set_readyState h CLOSED (sockets c)
                 ++ [mkWebSocket (reopen_uri x) CONNECTING] /\
    broken_calls c' = broken_calls c.
Proof.
  intros Hs Hn Hl Hv Hk.
  destruct (step_close_retry c h w rnd Hn Hl Hv Hk)
    as (c1 & H1 & Hself & Hsock & Htim & Hnt & Hbr).
  destruct (find_timer_snoc (nextTimer c)
              (mkTimeout (waitTimeSecs (self c) rnd * 1000) (url w)) (timers c))
    as [x Hx].
  assert (Hf : find_timer (nextTimer c) (timers c1) = Some x)
    by (rewrite Htim; exact Hx).
  destruct (step_timeout c1 (nextTimer c) x Hf)
    as (c2 & H2 & Hself2 & Hsock2 & _ & _ & Hbr2).
  exists c2, x. split; [|split; [exact Hx|split; [|split]]].
  - unfold fail_and_retry, attempt_fails. rewrite Hs, H1.
    unfold timer_fires. rewrite Hself. cbn. exact H2.
  - rewrite Hself2, Hself, Hsock, set_readyState_length. reflexivity.
  - rewrite Hsock2, Hsock. reflexivity.
  - congruence.
Qed.

Lemma fail_and_retry_exhausted (c : Config) (rnd : Z) :
  _retryTimer (self c) = None ->
  _maxRetries (self c) <= _currentRetry (self c) ->
  fail_and_retry rnd c = None.
Proof.
  intros Ht Hk. unfold fail_and_retry, attempt_fails.
  destruct (_socket (self c)) as [h|]; [|reflexivity].
  destruct (step (EvClose h rnd) c) as [c1|] eqn:E; [|reflexivity].
  unfold step in E.
  destruct (nth_error (sockets c) h) as [w|] eqn:Hn; [|discriminate].
  destruct (is_live w) eqn:Hl; [|discriminate].
  destruct (valid_drawb rnd) eqn:Hv; [|discriminate].
  apply valid_drawb_spec in Hv.
  destruct (step_close_broken c h w rnd Hn Hl Hv Hk) as (c1' & H1 & Hself & _).
  unfold step in H1. rewrite Hn, Hl in H1.
  apply valid_drawb_spec in Hv. rewrite Hv in H1. cbn [andb] in *.
  rewrite H1 in E. inversion E; subst c1'.
  unfold timer_fires. rewrite Hself, Ht. reflexivity.
Qed.

(** ** Runs of consecutive terminations *)

(** The number of consecutive terminations after which the object gives up,
    from a state whose attempt counter is [k]. *)
Lemma closed_streak_spec (rnds : list Z) :
  forall (rnd : Z) (c : Config) (h : handle) (w : WebSocket) (cb : callback),
  _socket (self c) = Some h ->
  nth_error (sockets c) h = Some w -> is_live w = true ->
  _retryTimer (self c) = None ->
  _onConnectionBroken (self c) = Some cb ->
  Forall valid_draw rnds -> valid_draw rnd ->
  let n := Z.of_nat (List.length rnds) + 1 in
  let g := Z.max 1 (_maxRetries (self c) - _currentRetry (self c) + 1) in
  match closed_streak rnds rnd c with
  | Some c' =>
      n <= g /\
      broken_calls c' = (broken_calls c + (if (n =? g)%Z then 1 else 0))%nat /\
      (_retryTimer (self c') = None <-> n = g)
  | None => g < n
  end.
Proof.
  induction rnds as [|r rnds IH]; intros rnd c h w cb Hs Hn Hl Ht Hb Hrs Hv n g.
  - unfold closed_streak; cbn [failed_attempts]. unfold attempt_fails.
    rewrite Hs. subst n g. cbn [List.length Z.of_nat Z.add].
    destruct (Z_lt_le_dec (_currentRetry (self c)) (_maxRetries (self c))) as [Hk|Hk].
    + destruct (step_close_retry c h w rnd Hn Hl Hv Hk)
        as (c1 & H1 & Hself & _ & _ & _ & Hbr).
      rewrite H1. split; [lia|]. split.
      * destruct (Z.eqb_spec 1 (Z.max 1 (_maxRetries (self c) - _currentRetry (self c) + 1)));
          [lia|]. rewrite Hbr. lia.
      * rewrite Hself. cbn. split; [discriminate|lia].
    + destruct (step_close_broken c h w rnd Hn Hl Hv Hk)
        as (c1 & H1 & Hself & _ & _ & _ & Hbr).
      rewrite H1. split; [lia|]. split.
      * destruct (Z.eqb_spec 1 (Z.max 1 (_maxRetries (self c) - _currentRetry (self c) + 1)));
          [|lia]. rewrite Hbr, Hb. lia.
      * rewrite Hself, Ht. split; [lia|reflexivity].
  - inversion Hrs as [|? ? Hr Hrs']; subst.
    unfold closed_streak; cbn [failed_attempts].
    destruct (Z_lt_le_dec (_currentRetry (self c)) (_maxRetries (self c))) as [Hk|Hk].
    + destruct (fail_and_retry_spec c h w r Hs Hn Hl Hr Hk)
        as (c2 & x & H2 & _ & Hself & Hsock & Hbr).
      rewrite H2.
      assert (Hn2 : nth_error (sockets c2) (List.length (sockets c))
                    = Some (mkWebSocket (reopen_uri x) CONNECTING)).
      { rewrite Hsock. rewrite <- (set_readyState_length h CLOSED (sockets c)).
        apply nth_error_snoc. }
      specialize (IH rnd c2 (List.length (sockets c))
                    (mkWebSocket (reopen_uri x) CONNECTING) cb).
      unfold closed_streak in IH.
      rewrite Hself in IH. cbn in IH.
      specialize (IH eq_refl Hn2 eq_refl eq_refl Hb Hrs' Hv).
      subst n g. cbn [List.length]. rewrite Nat2Z.inj_succ.
      destruct (failed_attempts rnds c2) as [c3|]; [|lia].
      destruct (attempt_fails rnd c3) as [c4|]; [|lia].
      destruct IH as (Hle & Hcnt & Hti).
      split; [lia|]. split.
      * rewrite Hcnt, Hbr.
        destruct (Z.eqb_spec (Z.of_nat (List.length rnds) + 1)
                    (Z.max 1 (_maxRetries (self c) - (_currentRetry (self c) + 1) + 1)));
        destruct (Z.eqb_spec (Z.succ (Z.of_nat (List.length rnds)) + 1)
                    (Z.max 1 (_maxRetries (self c) - _currentRetry (self c) + 1)));
        lia.
      * rewrite Hti. lia.
    + rewrite (fail_and_retry_exhausted c r Ht Hk).
      subst n g. cbn [List.length]. rewrite Nat2Z.inj_succ. lia.
Qed.

(** ** Liveness counts *)

Lemma live_handles_snoc (l : list WebSocket) (wsUri : string) :
  List.length (filter is_live (l ++ [mkWebSocket wsUri CONNECTING])) =
  S (List.length (filter is_live l)).
Proof.
  rewrite filter_app, length_app. cbn. lia.
Qed.

Lemma live_count_closed (h : handle) (l : list WebSocket) (w : WebSocket) :
  nth_error l h = Some w -> is_live w = true ->
  S (List.length (filter is_live (set_readyState h CLOSED l))) =
  List.length (filter is_live l).
Proof.
  revert h; induction l as [|x l IH]; intros [|h]; cbn; try discriminate.
  - intros [= ->] Hl. rewrite Hl. reflexivity.
  - intros Hn Hl. destruct (is_live x); cbn; rewrite (IH h Hn Hl); reflexivity.
Qed.

Lemma live_count_kept (h : handle) (s : ReadyState) (l : list WebSocket)
      (w : WebSocket) :
  nth_error l h = Some w -> is_live w = true -> s <> CLOSED ->
  List.length (filter is_live (set_readyState h s l)) =
  List.length (filter is_live l).
Proof.
  revert h; induction l as [|x l IH]; intros [|h]; cbn; try discriminate.
  - intros [= ->] Hl Hs. rewrite Hl. unfold is_live at 1; cbn.
    destruct s; try contradiction; reflexivity.
  - intros Hn Hl Hs. destruct (is_live x); cbn; rewrite (IH h Hn Hl Hs); reflexivity.
Qed.

Lemma WebSocket_close_cases (h : handle) (code : Z) (reason : string) (c : Config) :
  (close_accepts code reason = true /\
   exists c', WebSocket_close h code reason c = inr c') \/
  (close_accepts code reason = false /\
   exists e, WebSocket_close h code reason c = inl e).
Proof.
  unfold WebSocket_close, close_accepts.
  destruct (valid_close_code code); cbn; [|right; eauto].
  destruct (valid_close_reason reason); cbn; [left|right]; eauto.
Qed.

Lemma WebSocket_close_live (h : handle) (code : Z) (reason : string) (c c' : Config) :
  WebSocket_close h code reason c = inr c' ->
  live_handles c' = live_handles c /\
  timers c' = timers c /\
  self c' = self c.
Proof.
  unfold WebSocket_close, live_handles.
  destruct (valid_close_code code); cbn; [|discriminate].
  destruct (valid_close_reason reason); cbn; [|discriminate].
  intros [= <-].
  destruct (nth_error (sockets c) h) as [w|] eqn:Hn; cbn; auto.
  destruct (readyState w) eqn:Hr; cbn; auto;
    (split; [|auto]);
    apply (live_count_kept h CLOSING _ w Hn); try discriminate;
    unfold is_live; rewrite Hr; reflexivity.
Qed.

Lemma _resetRetries_live (c : Config) :
  live_handles (_resetRetries c) = live_handles c.
Proof. unfold live_handles. rewrite _resetRetries_sockets. reflexivity. Qed.

Lemma remove_timer_single (t : timer_id) (x : Timeout) :
  remove_timer t [(t, x)] = [].
Proof. cbn. rewrite Nat.eqb_refl. reflexivity. Qed.

Lemma find_timer_single (t t' : timer_id) (x y : Timeout) :
  find_timer t [(t', x)] = Some y -> t = t' /\ y = x.
Proof.
  cbn. destruct (Nat.eqb_spec t t'); [|discriminate].
  intros [= <-]. auto.
Qed.

Lemma set_socket_same (q : QuickWs) (s : option handle) :
  _socket q = s -> set_socket s q = q.
Proof. intros <-. destruct q; reflexivity. Qed.

(** [close] on a connection that has a handle: [s] is what [_socket] holds
    afterwards, null unless [WebSocket.close] threw. *)
Lemma close_spec (code : Z) (reason : string) (c : Config) (h : handle) :
  _socket (self c) = Some h ->
  exists s,
    self (close code reason c) =
      set_socket s (set_retryTimer None
        (set_currentRetry 0 (set_timeouts 2 30 2 2 (self c)))) /\
    (if close_accepts code reason then s = None else s = Some h) /\
    timers (close code reason c) =
      match _retryTimer (self c) with
      | Some t => remove_timer t (timers c)
      | None => timers c
      end /\
    live_handles (close code reason c) = live_handles c.
Proof.
  intros Hs. unfold close. rewrite Hs.
  destruct (WebSocket_close_cases h code reason (_resetRetries c))
    as [(Ha & c' & E) | (Ha & e & E)]; rewrite E, Ha.
  - destruct (WebSocket_close_live h code reason _ c' E) as (Hl & Ht & Hq).
    exists None. cbn. rewrite Hq, Ht, _resetRetries_self, _resetRetries_timers.
    split; [reflexivity|]. split; [reflexivity|]. split; [reflexivity|].
    change (live_handles c' = live_handles c).
    rewrite Hl. apply _resetRetries_live.
  - exists (Some h). cbn. rewrite _resetRetries_self, _resetRetries_timers.
    split; [|split; [reflexivity|split; [reflexivity|apply _resetRetries_live]]].
    symmetry. apply set_socket_same. exact Hs.
Qed.

Lemma single_track_reset_timers (c : Config) :
  single_track c ->
  match _retryTimer (self c) with
  | Some t => remove_timer t (timers c)
  | None => timers c
  end = [].
Proof.
  intros [(Ht & Hr & _) | (t & x & Ht & Hr & _)]; rewrite Hr, Ht.
  - reflexivity.
  - apply remove_timer_single.
Qed.

Lemma single_track_live (c : Config) :
  single_track c -> (live_handles c <= 1)%nat.
Proof. intros [(_ & _ & H) | (t & x & _ & _ & H)]; lia. Qed.

Lemma step_single_track (i : Input) (c c' : Config) :
  step i c = Some c' ->
  (forall wsUri, i = Connect wsUri -> live_handles c = 0%nat) ->
  single_track c -> single_track c'.
Proof.
  intros Hs Hd J. destruct i; unfold step in Hs.
  - (* connect *)
    inversion Hs; subst c'; clear Hs.
    destruct (connect_spec wsUri c) as (Hq & Hso & Ht & _).
    left. rewrite Ht, Hq. split; [apply single_track_reset_timers; exact J|].
    split; [reflexivity|].
    unfold live_handles. rewrite Hso, live_handles_snoc.
    specialize (Hd wsUri eq_refl). unfold live_handles in Hd. lia.
  - (* close *)
    inversion Hs; subst c'; clear Hs.
    destruct (_socket (self c)) as [h|] eqn:E.
    + destruct (close_spec code reason c h E) as (s & Hq & _ & Ht & Hl).
      left. rewrite Ht, Hq, Hl.
      split; [apply single_track_reset_timers; exact J|].
      split; [reflexivity|apply single_track_live; exact J].
    + unfold close. rewrite E. exact J.
  - inversion Hs; subst c'; exact J.
  - inversion Hs; subst c'; exact J.
  - inversion Hs; subst c'; exact J.
  - inversion Hs; subst c'; exact J.
  - inversion Hs; subst c'; exact J.
  - (* open event *)
    destruct (nth_error (sockets c) h) as [w|] eqn:Hn; [|discriminate].
    destruct (readyState w) eqn:Hr; try discriminate.
    destruct (step_open c h w Hn Hr) as (c1 & H1 & Hq & Hso & Ht & _).
    unfold step in H1. rewrite Hn, Hr in H1. rewrite H1 in Hs. inversion Hs; subst c1.
    left. rewrite Ht, Hq.
    split; [apply single_track_reset_timers; exact J|].
    split; [reflexivity|].
    unfold live_handles. rewrite Hso.
    rewrite (live_count_kept h OPEN _ w Hn); [apply single_track_live; exact J| |discriminate].
    unfold is_live. rewrite Hr. reflexivity.
  - (* error event *)
    destruct (nth_error (sockets c) h) as [w|]; [|discriminate].
    destruct (is_live w); [|discriminate].
    inversion Hs; subst c'. unfold on_error, _logError.
    destruct (logErrorCallback (self c)); exact J.
  - (* close event *)
    destruct (nth_error (sockets c) h) as [w|] eqn:Hn; [|discriminate].
    destruct (is_live w) eqn:Hl; [|discriminate].
    destruct (valid_drawb rnd) eqn:Hv; [|discriminate].
    cbn [andb] in Hs. apply valid_drawb_spec in Hv.
    pose proof (live_count_closed h _ w Hn Hl) as Hcnt.
    assert (Hno : timers c = [] /\ _retryTimer (self c) = None /\
                  live_handles c = 1%nat).
    { unfold live_handles.
      destruct J as [(Ht & Hr & Hle) | (t & x & _ & _ & Hz)];
        unfold live_handles in *; [repeat split; auto; lia | lia]. }
    destruct Hno as (Ht & Hr & Hone). unfold live_handles in Hone.
    destruct (Z_lt_le_dec (_currentRetry (self c)) (_maxRetries (self c))) as [Hk|Hk].
    + destruct (step_close_retry c h w rnd Hn Hl Hv Hk)
        as (c1 & H1 & Hq & Hso & Hti & _).
      unfold step in H1. rewrite Hn, Hl in H1.
      apply valid_drawb_spec in Hv. rewrite Hv in H1. cbn [andb] in H1.
      rewrite H1 in Hs. inversion Hs; subst c1.
      right. eexists; eexists. rewrite Hti, Ht, Hq. cbn.
      split; [reflexivity|]. split; [reflexivity|].
      unfold live_handles. rewrite Hso. lia.
    + destruct (step_close_broken c h w rnd Hn Hl Hv Hk)
        as (c1 & H1 & Hq & Hso & Hti & _).
      unfold step in H1. rewrite Hn, Hl in H1.
      apply valid_drawb_spec in Hv. rewrite Hv in H1. cbn [andb] in H1.
      rewrite H1 in Hs. inversion Hs; subst c1.
      left. rewrite Hti, Hq. split; [exact Ht|]. split; [exact Hr|].
      unfold live_handles. rewrite Hso. lia.
  - (* message event *)
    destruct (nth_error (sockets c) h) as [w|]; [|discriminate].
    destruct (readyState w); try discriminate.
    inversion Hs; subst c'. unfold on_message.
    destruct (_onMessageReceived (self c)); exact J.
  - (* timeout *)
    destruct (find_timer t (timers c)) as [x|] eqn:Hf; [|discriminate].
    destruct (step_timeout c t x Hf) as (c1 & H1 & Hq & Hso & Hti & _).
    unfold step in H1. rewrite Hf in H1. rewrite H1 in Hs. inversion Hs; subst c1.
    destruct J as [(Ht & _) | (t0 & x0 & Ht & Hr & Hz)].
    + rewrite Ht in Hf. discriminate.
    + rewrite Ht in Hf. apply find_timer_single in Hf. destruct Hf; subst.
      left. rewrite Hti, Ht, Hq, remove_timer_single.
      split; [reflexivity|]. split; [reflexivity|].
      unfold live_handles in *. rewrite Hso, live_handles_snoc. lia.
Qed.

Lemma disciplined_single_track (c : Config) :
  disciplined c -> single_track c.
Proof.
  induction 1 as [m | i c c' _ IH Hd Hs].
  - left. cbn. auto.
  - eapply step_single_track; eauto.
Qed.

(** ** Freshness of timeout identifiers *)

Lemma step_timers_shape (i : Input) (c c' : Config) :
  step i c = Some c' ->
  (nextTimer c' = nextTimer c /\
   (timers c' = timers c \/ exists t, timers c' = remove_timer t (timers c))) \/
  (exists x, nextTimer c' = S (nextTimer c) /\
             timers c' = timers c ++ [(nextTimer c, x)]).
Proof.
  intros Hs.
  destruct i; step_cases; eauto 6.
Qed.

Lemma Forall_remove_timer (P : timer_id * Timeout -> Prop) (t : timer_id)
      (l : list (timer_id * Timeout)) :
  Forall P l -> Forall P (remove_timer t l).
Proof.
  induction 1 as [|[t' x] l Hx Hl IH]; cbn; [constructor|].
  destruct (Nat.eqb t t'); auto.
Qed.

Lemma step_timers_fresh (i : Input) (c c' : Config) :
  step i c = Some c' -> timers_fresh c -> timers_fresh c'.
Proof.
  unfold timers_fresh. intros Hs Hf.
  destruct (step_timers_shape i c c' Hs)
    as [(Hn & [Ht | (t & Ht)]) | (x & Hn & Ht)]; rewrite Hn, Ht.
  - exact Hf.
  - apply Forall_remove_timer. exact Hf.
  - apply Forall_app. split.
    + eapply Forall_impl; [|exact Hf]. cbn. intros; lia.
    + constructor; [cbn; lia|constructor].
Qed.

Lemma reachable_timers_fresh (c : Config) : reachable c -> timers_fresh c.
Proof.
  induction 1 as [m | i c c' _ IH Hs].
  - constructor.
  - eapply step_timers_fresh; eauto.
Qed.

Lemma find_timer_fresh (t : timer_id) (x : Timeout) (l : list (timer_id * Timeout)) :
  Forall (fun p => (fst p < t)%nat) l ->
  find_timer t (l ++ [(t, x)]) = Some x.
Proof.
  induction 1 as [|[t' y] l Hy Hl IH]; cbn.
  - rewrite Nat.eqb_refl. reflexivity.
  - cbn in Hy. destruct (Nat.eqb_spec t t'); [lia|exact IH].
Qed.

(** The scenario pieces are steps. *)
Lemma attempt_fails_step (rnd : Z) (c c' : Config) :
  attempt_fails rnd c = Some c' -> exists h, step (EvClose h rnd) c = Some c'.
Proof. unfold attempt_fails. destruct (_socket (self c)); [eauto|discriminate]. Qed.


Lemma timer_fires_step (c c' : Config) :
  timer_fires c = Some c' -> exists t, step (EvTimeout t) c = Some c'.
Proof. unfold timer_fires. destruct (_retryTimer (self c)); [eauto|discriminate]. Qed.

Lemma failed_attempts_reachable (rnds : list Z) :
  forall c c', failed_attempts rnds c = Some c' -> reachable c -> reachable c'.
Proof.
  induction rnds as [|r rnds IH]; cbn; intros c c' H Hr.
  - inversion H; subst; exact Hr.
  - unfold fail_and_retry in H.
    destruct (attempt_fails r c) as [c1|] eqn:E1; [|discriminate].
    destruct (timer_fires c1) as [c2|] eqn:E2; [|discriminate].
    apply attempt_fails_step in E1. destruct E1 as [h E1].
    apply timer_fires_step in E2. destruct E2 as [t E2].
    apply (IH c2 c' H).
    eapply reach_step; [|exact E2]. eapply reach_step; [|exact E1]. exact Hr.
Qed.

(** ** Scheduling and the address of a retry *)

Lemma attempt_fails_schedules (c : Config) (h : handle) (w : WebSocket) (rnd : Z) :
  timers_fresh c ->
  _socket (self c) = Some h ->
  nth_error (sockets c) h = Some w -> is_live w = true -> valid_draw rnd ->
  _currentRetry (self c) < _maxRetries (self c) ->
  exists c',
    attempt_fails rnd c = Some c' /\
    scheduled_delay c' = Some (waitTimeSecs (self c) rnd * 1000) /\
    pending_timers c' = S (pending_timers c) /\
    broken_calls c' = broken_calls c.
Proof.
  intros Hf Hs Hn Hl Hv Hk.
  destruct (step_close_retry c h w rnd Hn Hl Hv Hk)
    as (c1 & H1 & Hq & _ & Ht & _ & Hbr).
  exists c1. unfold attempt_fails. rewrite Hs. split; [exact H1|].
  split; [|split; [|exact Hbr]].
  - unfold scheduled_delay. rewrite Hq, Ht. cbn.
    rewrite find_timer_fresh by exact Hf. reflexivity.
  - unfold pending_timers. rewrite Ht, length_app. cbn. lia.
Qed.

Lemma fail_and_retry_fresh (c : Config) (h : handle) (w : WebSocket) (rnd : Z) :
  timers_fresh c ->
  _socket (self c) = Some h ->
  nth_error (sockets c) h = Some w -> is_live w = true -> valid_draw rnd ->
  _currentRetry (self c) < _maxRetries (self c) ->
  exists c',
    fail_and_retry rnd c = Some c' /\
    self c' = set_socket (Some (List.length (sockets c)))
                (set_currentRetry (_currentRetry (self c) + 1)
                   (set_retryTimer None (self c))) /\
    sockets c' = set_readyState h CLOSED (sockets c)
                 ++ [mkWebSocket (url w) CONNECTING] /\
    broken_calls c' = broken_calls c.
Proof.
  intros Hf Hs Hn Hl Hv Hk.
  destruct (fail_and_retry_spec c h w rnd Hs Hn Hl Hv Hk)
    as (c' & x & H & Hx & Hq & Hso & Hbr).
  rewrite find_timer_fresh in Hx by exact Hf. inversion Hx; subst x.
  exists c'. auto.
Qed.

Lemma fail_and_retry_step_fresh (rnd : Z) (c c' : Config) :
  fail_and_retry rnd c = Some c' -> timers_fresh c -> timers_fresh c'.
Proof.
  unfold fail_and_retry. intros H Hf.
  destruct (attempt_fails rnd c) as [c1|] eqn:E1; [|discriminate].
  apply attempt_fails_step in E1. destruct E1 as [h E1].
  apply timer_fires_step in H. destruct H as [t H].
  eapply step_timers_fresh; [exact H|].
  eapply step_timers_fresh; [exact E1|exact Hf].
Qed.

(** [length rnds] failed attempts in a row go through while the counter
    stays below [maxRetries]; each retry goes to the same address. *)
Lemma failed_attempts_spec (rnds : list Z) :
  forall (c : Config) (h : handle) (w : WebSocket),
  timers_fresh c ->
  _socket (self c) = Some h ->
  nth_error (sockets c) h = Some w -> readyState w = CONNECTING ->
  Forall valid_draw rnds ->
  _currentRetry (self c) + Z.of_nat (List.length rnds) <= _maxRetries (self c) ->
  exists c' h',
    failed_attempts rnds c = Some c' /\
    timers_fresh c' /\
    _socket (self c') = Some h' /\
    nth_error (sockets c') h' = Some (mkWebSocket (url w) CONNECTING) /\
    _currentRetry (self c') = _currentRetry (self c) + Z.of_nat (List.length rnds) /\
    _maxRetries (self c') = _maxRetries (self c) /\
    _onConnectionBroken (self c') = _onConnectionBroken (self c) /\
    broken_calls c' = broken_calls c.
Proof.
  induction rnds as [|r rnds IH]; intros c h w Hf Hs Hn Hr Hrs Hk.
  - exists c, h. cbn. rewrite Z.add_0_r.
    destruct w as [u s]; cbn in Hr; subst s. auto 10.
  - inversion Hrs as [|? ? Hv Hrs']; subst.
    cbn [List.length] in Hk. rewrite Nat2Z.inj_succ in Hk.
    assert (Hl : is_live w = true) by (unfold is_live; rewrite Hr; reflexivity).
    destruct (fail_and_retry_fresh c h w r Hf Hs Hn Hl Hv ltac:(lia))
      as (c1 & H1 & Hq & Hso & Hbr).
    pose proof (fail_and_retry_step_fresh r c c1 H1 Hf) as Hf1.
    assert (Hn1 : nth_error (sockets c1) (List.length (sockets c))
                  = Some (mkWebSocket (url w) CONNECTING)).
    { rewrite Hso. rewrite <- (set_readyState_length h CLOSED (sockets c)).
      apply nth_error_snoc. }
    destruct (IH c1 (List.length (sockets c)) _ Hf1
                ltac:(rewrite Hq; reflexivity) Hn1 eq_refl Hrs'
                ltac:(rewrite Hq; cbn; lia))
      as (c' & h' & H & Hf' & Hs' & Hn' & Hk' & Hm' & Hb' & Hbr').
    exists c', h'. cbn [failed_attempts]. rewrite H1.
    split; [exact H|]. split; [exact Hf'|]. split; [exact Hs'|].
    split; [exact Hn'|].
    rewrite Hq in Hk', Hm', Hb'. cbn in Hk', Hm', Hb'.
    cbn [List.length]. rewrite Nat2Z.inj_succ.
    repeat split; try assumption; try lia; congruence.
Qed.

(** * The reconnection state machine, property by property *)

Lemma step_close_inv (c c' : Config) (h : handle) (rnd : Z) :
  step (EvClose h rnd) c = Some c' ->
  exists w, nth_error (sockets c) h = Some w /\ is_live w = true /\ valid_draw rnd.
Proof.
  unfold step. destruct (nth_error (sockets c) h) as [w|]; [|discriminate].
  destruct (is_live w) eqn:Hl; [|discriminate].
  destruct (valid_drawb rnd) eqn:Hv; cbn [andb]; [|discriminate].
  apply valid_drawb_spec in Hv. intros _. exists w. auto.
Qed.

(** ** Delay computation *)

(** C4. Whenever a [close] event finds the retry count [k] below
    [maxRetries], a delay is computed: it is
    [min(2 + 2*k + j, 30)] seconds where [j], the draw of
    [_getRandomInt(-2, 2)], is an integer of the half-open interval
    [[-2, 2)] (lower bound included, upper bound excluded); the value
    before clamping lies in [[2 + 2k - 2, 2 + 2k + 2)], the clamped one never
    exceeds 30, and that many seconds (times 1000) is what the pending
    timeout is scheduled with. *)
Theorem retry_delay_formula (c c' : Config) (h : handle) (rnd : Z) :
  reachable c ->
  step (EvClose h rnd) c = Some c' ->
  _currentRetry (self c) < _maxRetries (self c) ->
  let k := _currentRetry (self c) in
  let j := _getRandomInt rnd (-2) 2 in
  -2 <= j < 2 /\
  2 + 2 * k - 2 <= 2 + 2 * k + j < 2 + 2 * k + 2 /\
  waitTimeSecs (self c) rnd = Z.min (2 + 2 * k + j) 30 /\
  waitTimeSecs (self c) rnd <= 30 /\
  scheduled_delay c' = Some (waitTimeSecs (self c) rnd * 1000).
Proof.
  intros Hr Hs Hk k j.
  destruct (step_close_inv c c' h rnd Hs) as (w & Hn & Hl & Hv).
  assert (Hj : -2 <= j < 2) by (apply jitter_draw_range; exact Hv).
  pose proof (waitTimeSecs_default (self c) rnd (reachable_default_timeouts c Hr)) as Hw.
  split; [exact Hj|]. split; [lia|]. split; [exact Hw|].
  split; [rewrite Hw; lia|].
  destruct (step_close_retry c h w rnd Hn Hl Hv Hk)
    as (c1 & H1 & Hq & _ & Ht & _).
  rewrite H1 in Hs. inversion Hs; subst c1.
  unfold scheduled_delay. rewrite Hq, Ht. cbn.
  rewrite find_timer_fresh by (apply reachable_timers_fresh; exact Hr).
  reflexivity.
Qed.

Lemma retry_delay_formula_witness :
  scheduled_delay
    (on_close "ws://a" 0
       (with_sockets (set_readyState 0%nat CLOSED) (connect "ws://a" (boot 5))))
  = Some (waitTimeSecs (self (connect "ws://a" (boot 5))) 0 * 1000).
Proof.
  refine (proj2 (proj2 (proj2 (proj2
    (retry_delay_formula (connect "ws://a" (boot 5)) _ 0%nat 0 _ _ _))))).
  - apply (reach_step (Connect "ws://a") (boot 5)); [apply reach_boot|reflexivity].
  - reflexivity.
  - cbn. lia.
Defined.

(** C10. With the constants 2, 30, 2, 2 and a retry count [k >= 0] the delay
    is a non-negative integer number of seconds: the draw lies in [[-2, 2)],
    the value before clamping in [[2k, 2k + 4)], although nothing clamps the
    delay from below. *)
Theorem delay_nonnegative (q : QuickWs) (rnd : Z) :
  default_timeouts q -> valid_draw rnd -> 0 <= _currentRetry q ->
  let k := _currentRetry q in
  let j := _getRandomInt rnd (- _retryTimeoutJitter q) (_retryTimeoutJitter q) in
  -2 <= j < 2 /\
  2 * k <= _retryTimeoutBase q + _retryTimeoutIncrement q * k + j < 2 * k + 4 /\
  0 <= waitTimeSecs q rnd /\
  0 <= waitTimeSecs q rnd * 1000.
Proof.
  intros Hd Hv Hk k j.
  pose proof (waitTimeSecs_default q rnd Hd) as Hw.
  destruct Hd as (Hb & Hm & Hi & Hjt).
  assert (Hj : -2 <= j < 2).
  { subst j. rewrite Hjt. apply jitter_draw_range; exact Hv. }
  assert (Hjj : j = _getRandomInt rnd (-2) 2) by (subst j; rewrite Hjt; reflexivity).
  rewrite Hb, Hi. rewrite Hw, <- Hjj. subst k. lia.
Qed.

Lemma delay_nonnegative_witness :
  0 <= waitTimeSecs (constructor 5) 0.
Proof.
  refine (proj1 (proj2 (proj2 (delay_nonnegative (constructor 5) 0 _ _ _)))).
  - unfold default_timeouts; cbn; auto.
  - unfold valid_draw; cbn; lia.
  - cbn; lia.
Defined.

(** ** Events that only pass through *)




(** C8. An [error] event only reaches the error sink: the object (socket,
    retry counter, timer, stored callbacks), the sockets and the pending
    timeouts are unchanged, and the only entry that can be added to the trace
    is the call of [logErrorCallback]; no application callback is called and
    nothing is scheduled. *)
Theorem error_only_logged (c : Config) (h : handle) (w : WebSocket) :
  nth_error (sockets c) h = Some w -> is_live w = true ->
  exists c',
    step (EvError h) c = Some c' /\
    self c' = self c /\ sockets c' = sockets c /\ timers c' = timers c /\
    nextTimer c' = nextTimer c /\
    trace c' = match logErrorCallback (self c) with
               | Some cb => ELogError cb MsgError :: trace c
               | None => trace c
               end.
Proof.
  intros Hn Hl. unfold step. rewrite Hn, Hl.
  eexists; split; [reflexivity|]. unfold on_error, _logError.
  destruct (logErrorCallback (self c)); cbn; auto.
Qed.

Lemma error_only_logged_witness :
  exists c',
    step (EvError 0%nat) (connect "ws://a" (boot 5)) = Some c' /\
    self c' = self (connect "ws://a" (boot 5)) /\
    trace c' = trace (connect "ws://a" (boot 5)).
Proof.
  destruct (error_only_logged (connect "ws://a" (boot 5)) 0%nat
              (mkWebSocket "ws://a" CONNECTING) eq_refl eq_refl)
    as (c' & Hs & Hq & _ & _ & _ & Ht).
  exists c'. split; [exact Hs|]. split; [exact Hq|exact Ht].
Defined.

(** ** Giving up *)

Lemma attempt_opens_spec (c opened : Config) :
  attempt_opens c = Some opened ->
  exists h w,
    _socket (self c) = Some h /\
    nth_error (sockets c) h = Some w /\ readyState w = CONNECTING /\
    self opened = set_retryTimer None
                    (set_currentRetry 0 (set_timeouts 2 30 2 2 (self c))) /\
    sockets opened = set_readyState h OPEN (sockets c) /\
    nth_error (sockets opened) h = Some (mkWebSocket (url w) OPEN) /\
    broken_calls opened = broken_calls c.
Proof.
  unfold attempt_opens. destruct (_socket (self c)) as [h|] eqn:Hs; [|discriminate].
  intros H. pose proof H as H'. unfold step in H'.
  destruct (nth_error (sockets c) h) as [w|] eqn:Hn; [|discriminate].
  destruct (readyState w) eqn:Hr; try discriminate. clear H'.
  destruct (step_open c h w Hn Hr) as (c1 & H1 & Hq & Hso & _ & _ & Hbr).
  rewrite H1 in H. inversion H; subst c1.
  exists h, w. repeat split; auto.
  rewrite Hso. apply nth_error_set_readyState_same. exact Hn.
Qed.

(** C2 (as the code has it). In a run of consecutive [close] events on the
    connection's successive attempts, none of which opened, the broken
    callback is called exactly once, by the [close] event that finds the
    attempt counter at or above [maxRetries].  For [maxRetries >= 1] this is
    the [maxRetries]-th termination when the run starts right after
    [connect] (the counter is 1 during the first attempt), and the
    [(maxRetries + 1)]-th when the run starts with the drop of a connection
    that had opened (the counter was reset to 0).  Before that point a retry
    timeout is recorded after each termination; at that point none is, and
    the run cannot go on: no further attempt is made. *)
Theorem broken_threshold (c : Config) (wsUri : string) (cb : callback)
        (rnds : list Z) (rnd : Z) :
  _onConnectionBroken (self c) = Some cb ->
  1 <= _maxRetries (self c) ->
  Forall valid_draw rnds -> valid_draw rnd ->
  let m := _maxRetries (self c) in
  let n := Z.of_nat (List.length rnds) + 1 in
  match closed_streak rnds rnd (connect wsUri c) with
  | Some c' =>
      n <= m /\
      broken_calls c' = (broken_calls c + (if (n =? m)%Z then 1 else 0))%nat /\
      (_retryTimer (self c') = None <-> n = m)
  | None => m < n
  end /\
  forall opened, attempt_opens c = Some opened ->
  match closed_streak rnds rnd opened with
  | Some c' =>
      n <= m + 1 /\
      broken_calls c' = (broken_calls c + (if (n =? m + 1)%Z then 1 else 0))%nat /\
      (_retryTimer (self c') = None <-> n = m + 1)
  | None => m + 1 < n
  end.
Proof.
  intros Hb Hm Hrs Hv m n. split.
  - destruct (connect_spec wsUri c) as (Hq & Hso & _ & _ & Hbr).
    pose proof (closed_streak_spec rnds rnd (connect wsUri c)
                  (List.length (sockets c)) (mkWebSocket wsUri CONNECTING) cb) as S.
    rewrite Hq, Hso, Hbr in S. cbn in S.
    specialize (S eq_refl (nth_error_snoc _ _) eq_refl eq_refl Hb Hrs Hv).
    replace (Z.max 1 (_maxRetries (self c) - 1 + 1)) with m in S by (subst m; lia).
    exact S.
  - intros opened Ho.
    destruct (attempt_opens_spec c opened Ho)
      as (h & w & Hs & Hn & Hr & Hq & Hso & Hn' & Hbr).
    pose proof (closed_streak_spec rnds rnd opened h (mkWebSocket (url w) OPEN) cb) as S.
    rewrite Hq, Hbr in S. cbn in S.
    specialize (S Hs Hn' eq_refl eq_refl Hb Hrs Hv).
    replace (Z.max 1 (_maxRetries (self c) - 0 + 1)) with (m + 1) in S
      by (subst m; lia).
    exact S.
Qed.

Lemma broken_threshold_witness :
  let c := onConnectionBroken 7%nat (boot 2) in
  let m := _maxRetries (self c) in
  let n := Z.of_nat (List.length [0]) + 1 in
  match closed_streak [0] 0 (connect "ws://a" c) with
  | Some c' =>
      n <= m /\
      broken_calls c' = (broken_calls c + (if (n =? m)%Z then 1 else 0))%nat /\
      (_retryTimer (self c') = None <-> n = m)
  | None => m < n
  end.
Proof.
  intros c.
  assert (H1 : _onConnectionBroken (self c) = Some 7%nat) by reflexivity.
  assert (H2 : 1 <= _maxRetries (self c)) by (vm_compute; discriminate).
  assert (H3 : Forall valid_draw [0])
    by (repeat constructor; vm_compute; discriminate).
  assert (H4 : valid_draw 0) by (split; vm_compute; [discriminate|reflexivity]).
  pose proof (broken_threshold c "ws://a" 7%nat [0] 0 H1 H2 H3 H4) as H.
  cbv zeta in H. destruct H as [H _]. exact H.
Defined.

(** C2, the claim as stated fails: with [maxRetries = 2], a connection that
    opened and then saw two consecutive [close] events (as many as
    [maxRetries]) has not called the broken callback; a retry is pending
    instead.  The third consecutive [close] event calls it. *)
Lemma broken_after_open_counterexample :
  exists c2 c3,
    run [OnConnectionBroken 7%nat; Connect "ws://a"; EvOpen 0%nat;
         EvClose 0%nat 0; EvTimeout 1%nat; EvClose 1%nat 0] (boot 2) = Some c2 /\
    _maxRetries (self c2) = 2 /\
    broken_calls c2 = 0%nat /\
    pending_timers c2 = 1%nat /\
    run [EvTimeout 2%nat; EvClose 2%nat 0] c2 = Some c3 /\
    broken_calls c3 = 1%nat.
Proof.
  eexists; eexists.
  split; [vm_compute; reflexivity|].
  split; [reflexivity|]. split; [reflexivity|]. split; [reflexivity|].
  split; [vm_compute; reflexivity|]. reflexivity.
Qed.

(** ** Success resets the counter *)

(** C5 (as the code has it). After [N < maxRetries] failed attempts and one
    [open] event the retry counter is 0.  The delay scheduled by the next
    failure is computed from that counter: [min(2 + j, 30)] seconds for the
    draw [j].  The first retry after a fresh [connect] is computed while the
    counter is 1, [min(2 + 2*1 + j, 30)] seconds, which for the same draw is
    two seconds more. *)
Theorem reset_on_success (c0 : Config) (wsUri : string) (rnds : list Z) (rnd : Z) :
  reachable c0 ->
  Forall valid_draw rnds -> valid_draw rnd ->
  Z.of_nat (List.length rnds) < _maxRetries (self c0) ->
  let j := _getRandomInt rnd (-2) 2 in
  exists c1 c2 c3,
    failed_attempts rnds (connect wsUri c0) = Some c1 /\
    attempt_opens c1 = Some c2 /\
    _currentRetry (self c2) = 0 /\
    attempt_fails rnd c2 = Some c3 /\
    scheduled_delay c3 = Some (Z.min (2 + j) 30 * 1000) /\
    (1 < _maxRetries (self c0) ->
     exists c4,
       attempt_fails rnd (connect wsUri c0) = Some c4 /\
       scheduled_delay c4 = Some (Z.min (2 + 2 * 1 + j) 30 * 1000) /\
       Z.min (2 + 2 * 1 + j) 30 = Z.min (2 + j) 30 + 2).
Proof.
  intros Hr Hrs Hv HN j.
  assert (Hj : -2 <= j < 2) by (apply jitter_draw_range; exact Hv).
  destruct (connect_spec wsUri c0) as (Hq & Hso & _ & _ & _).
  assert (Hrc : reachable (connect wsUri c0))
    by (apply (reach_step (Connect wsUri) c0); [exact Hr|reflexivity]).
  assert (Hs0 : _socket (self (connect wsUri c0)) = Some (List.length (sockets c0)))
    by (rewrite Hq; reflexivity).
  assert (Hn0 : nth_error (sockets (connect wsUri c0)) (List.length (sockets c0))
                = Some (mkWebSocket wsUri CONNECTING))
    by (rewrite Hso; apply nth_error_snoc).
  assert (Hk0 : _currentRetry (self (connect wsUri c0)) = 1)
    by (rewrite Hq; reflexivity).
  assert (Hm0 : _maxRetries (self (connect wsUri c0)) = _maxRetries (self c0))
    by (rewrite Hq; reflexivity).
  destruct (failed_attempts_spec rnds (connect wsUri c0) _ _
              (reachable_timers_fresh _ Hrc) Hs0 Hn0 eq_refl Hrs
              ltac:(rewrite Hk0, Hm0; lia))
    as (c1 & h1 & H1 & Hf1 & Hs1 & Hn1 & Hk1 & Hm1 & _ & _).
  cbn [url] in Hn1.
  destruct (step_open c1 h1 _ Hn1 eq_refl) as (c2 & H2 & Hq2 & Hso2 & _ & _).
  assert (Hf2 : timers_fresh c2) by (eapply step_timers_fresh; eauto).
  assert (Hn2 : nth_error (sockets c2) h1 = Some (mkWebSocket wsUri OPEN)).
  { rewrite Hso2. apply (nth_error_set_readyState_same h1 OPEN _ _ Hn1). }
  assert (Hm : _maxRetries (self c1) = _maxRetries (self c0))
    by (rewrite Hm1, Hm0; reflexivity).
  assert (Hk2 : _currentRetry (self c2) = 0) by (rewrite Hq2; reflexivity).
  assert (Hm2' : _maxRetries (self c2) = _maxRetries (self c0))
    by (rewrite Hq2; exact Hm).
  destruct (attempt_fails_schedules c2 h1 _ rnd Hf2
              ltac:(rewrite Hq2; exact Hs1) Hn2 eq_refl Hv
              ltac:(rewrite Hk2, Hm2'; lia))
    as (c3 & H3 & Hd3 & _).
  exists c1, c2, c3.
  split; [exact H1|].
  split; [unfold attempt_opens; rewrite Hs1; exact H2|].
  split; [exact Hk2|].
  split; [exact H3|].
  split.
  - rewrite Hd3, Hq2. unfold waitTimeSecs; cbn.
    replace (2 + 0 + _getRandomInt rnd (-2) 2) with (2 + j) by (subst j; lia).
    reflexivity.
  - intros Hm2.
    destruct (attempt_fails_schedules (connect wsUri c0) _ _ rnd
                (reachable_timers_fresh _ Hrc) Hs0 Hn0 eq_refl Hv
                ltac:(rewrite Hk0, Hm0; lia))
      as (c4 & H4 & Hd4 & _).
    exists c4. split; [exact H4|]. split; [|lia].
    rewrite Hd4.
    rewrite (waitTimeSecs_default _ _ (reachable_default_timeouts _ Hrc)).
    rewrite Hq. reflexivity.
Qed.

Lemma reset_on_success_witness :
  let j := _getRandomInt 0 (-2) 2 in
  exists c1 c2 c3,
    failed_attempts [0] (connect "ws://a" (boot 5)) = Some c1 /\
    attempt_opens c1 = Some c2 /\
    _currentRetry (self c2) = 0 /\
    attempt_fails 0 c2 = Some c3 /\
    scheduled_delay c3 = Some (Z.min (2 + j) 30 * 1000) /\
    (1 < _maxRetries (self (boot 5)) ->
     exists c4,
       attempt_fails 0 (connect "ws://a" (boot 5)) = Some c4 /\
       scheduled_delay c4 = Some (Z.min (2 + 2 * 1 + j) 30 * 1000) /\
       Z.min (2 + 2 * 1 + j) 30 = Z.min (2 + j) 30 + 2).
Proof.
  apply (reset_on_success (boot 5) "ws://a" [0] 0).
  - apply reach_boot.
  - repeat constructor; cbn; lia.
  - unfold valid_draw; cbn; lia.
  - cbn; lia.
Defined.

(** C5, the claim as stated fails: with the same draw, the failure after a
    success schedules 0 ms while the first retry after a fresh [connect]
    schedules 2000 ms. *)
Lemma delay_after_success_counterexample :
  exists c_after c_first,
    run [Connect "ws://a"; EvClose 0%nat 0; EvTimeout 1%nat; EvOpen 1%nat;
         EvClose 1%nat 0] (boot 5) = Some c_after /\
    run [Connect "ws://a"; EvClose 0%nat 0] (boot 5) = Some c_first /\
    scheduled_delay c_after = Some 0 /\
    scheduled_delay c_first = Some 2000 /\
    scheduled_delay c_after <> scheduled_delay c_first.
Proof.
  eexists; eexists.
  split; [vm_compute; reflexivity|].
  split; [vm_compute; reflexivity|].
  split; [reflexivity|]. split; [reflexivity|]. discriminate.
Qed.

(** ** Small [maxRetries] *)

Lemma no_live_nth (l : list WebSocket) :
  List.length (filter is_live l) = 0%nat ->
  forall h w, nth_error l h = Some w -> is_live w = false.
Proof.
  induction l as [|x l IH]; intros H [|h] w; cbn; try discriminate.
  - intros [= ->]. cbn in H. destruct (is_live w); [discriminate|reflexivity].
  - cbn in H. destruct (is_live x); [discriminate|]. apply IH. exact H.
Qed.

Lemma idle_host_quiescent (c : Config) :
  live_handles c = 0%nat -> pending_timers c = 0%nat -> quiescent c.
Proof.
  unfold live_handles, pending_timers. intros Hl Ht i Hi.
  pose proof (no_live_nth _ Hl) as Hd.
  destruct i; try discriminate; unfold step.
  - destruct (nth_error (sockets c) h) as [w|] eqn:Hn; [|reflexivity].
    specialize (Hd h w Hn). unfold is_live in Hd.
    destruct (readyState w); try reflexivity; discriminate.
  - destruct (nth_error (sockets c) h) as [w|] eqn:Hn; [|reflexivity].
    rewrite (Hd h w Hn). reflexivity.
  - destruct (nth_error (sockets c) h) as [w|] eqn:Hn; [|reflexivity].
    rewrite (Hd h w Hn). reflexivity.
  - destruct (nth_error (sockets c) h) as [w|] eqn:Hn; [|reflexivity].
    specialize (Hd h w Hn). unfold is_live in Hd.
    destruct (readyState w); try reflexivity; discriminate.
  - destruct (timers c); [reflexivity|discriminate].
Qed.




(** ** [connect], [close] and the single attempt *)




(** C3 (as the code has it). In every state of an execution in which
    [connect] is only called while no socket opened earlier is still live,
    at most one thing is in flight: one live socket or one pending timeout,
    never both.  In such a state [connect] leaves no timeout pending, [close]
    leaves none pending when the handle field is not null, and a timeout
    that fires leaves none pending and one live socket.  ([connect] and the
    reopen after a timeout never close an earlier socket.) *)
Theorem single_attempt_invariant (c : Config) :
  disciplined c ->
  (live_handles c + pending_timers c <= 1)%nat /\
  (forall wsUri, pending_timers (connect wsUri c) = 0%nat) /\
  (forall code reason, _socket (self c) <> None ->
                       pending_timers (close code reason c) = 0%nat) /\
  (forall t c', step (EvTimeout t) c = Some c' ->
                pending_timers c' = 0%nat /\ live_handles c' = 1%nat).
Proof.
  intros Hd. pose proof (disciplined_single_track c Hd) as J.
  split; [|split; [|split]].
  - destruct J as [(Ht & _ & Hl) | (t & x & Ht & _ & Hl)];
      unfold pending_timers; rewrite Ht; cbn; lia.
  - intros wsUri. destruct (connect_spec wsUri c) as (_ & _ & Ht & _).
    unfold pending_timers. rewrite Ht, (single_track_reset_timers c J). reflexivity.
  - intros code reason Hs.
    destruct (_socket (self c)) as [h|] eqn:E; [|contradiction].
    destruct (close_spec code reason c h E) as (s & _ & _ & Ht & _).
    unfold pending_timers. rewrite Ht, (single_track_reset_timers c J). reflexivity.
  - intros t c' Hs.
    assert (J' : single_track c')
      by (apply (step_single_track (EvTimeout t) c c' Hs); [discriminate|exact J]).
    unfold step in Hs.
    destruct (find_timer t (timers c)) as [x|] eqn:Hf; [|discriminate].
    destruct (step_timeout c t x Hf) as (c1 & H1 & _ & Hso & Hti & _).
    unfold step in H1. rewrite Hf in H1. rewrite H1 in Hs. inversion Hs; subst c1.
    destruct J as [(Ht & _) | (t0 & x0 & Ht & _ & Hz)].
    + rewrite Ht in Hf. discriminate.
    + rewrite Ht in Hf. apply find_timer_single in Hf. destruct Hf; subst.
      unfold pending_timers, live_handles in *.
      rewrite Hti, Ht, remove_timer_single, Hso, live_handles_snoc. cbn. lia.
Qed.

Lemma single_attempt_invariant_witness :
  (live_handles (on_close "ws://a" 0
                   (with_sockets (set_readyState 0%nat CLOSED)
                      (connect "ws://a" (boot 5))))
   + pending_timers (on_close "ws://a" 0
                       (with_sockets (set_readyState 0%nat CLOSED)
                          (connect "ws://a" (boot 5)))) <= 1)%nat.
Proof.
  refine (proj1 (single_attempt_invariant _ _)).
  apply (disc_step (EvClose 0%nat 0) (connect "ws://a" (boot 5))).
  - apply (disc_step (Connect "ws://a") (boot 5)).
    + apply disc_boot.
    + intros; reflexivity.
    + reflexivity.
  - discriminate.
  - reflexivity.
Defined.

(** C3, the claim as stated fails: a second [connect] opens a second socket
    without closing the first, so two handles are live; when both close,
    two timeouts are pending, and both fire. *)
Lemma two_attempts_counterexample :
  exists c c' c'',
    run [Connect "ws://a"; Connect "ws://a"] (boot 5) = Some c /\
    live_handles c = 2%nat /\
    run [EvClose 0%nat 0; EvClose 1%nat 0] c = Some c' /\
    pending_timers c' = 2%nat /\
    run [EvTimeout 1%nat; EvTimeout 2%nat] c' = Some c'' /\
    live_handles c'' = 2%nat.
Proof.
  eexists; eexists; eexists.
  split; [vm_compute; reflexivity|]. split; [reflexivity|].
  split; [vm_compute; reflexivity|]. split; [reflexivity|].
  split; [vm_compute; reflexivity|]. reflexivity.
Qed.

(** C1, evaluated on the code.  First run: the caller connects, the
    connection opens, the caller calls [close()], the socket's [close] event
    arrives and, the listener still being attached and the counter being 0,
    schedules a retry; the caller calls [close()] again while that timeout is
    pending: [_socket] is null, so nothing is cancelled, and the timeout opens
    a second transport.  Second run: two attempts are live, the first one
    fails and a timeout is pending; [close()] cancels it, but the [close]
    event of the attempt it abandoned arrives afterwards and schedules a
    retry, which opens a third transport. *)
Theorem close_does_not_stop_reconnection :
  (exists c1 c2 c3,
     run [Connect "ws://a"; EvOpen 0%nat; Close 1000 "bye"; EvClose 0%nat 0]
         (boot 5) = Some c1 /\
     pending_timers c1 = 1%nat /\
     step (Close 1000 "bye") c1 = Some c2 /\
     pending_timers c2 = 1%nat /\ opened_transports c2 = 1%nat /\
     step (EvTimeout 1%nat) c2 = Some c3 /\
     opened_transports c3 = 2%nat) /\
  (exists c1 c2 c3,
     run [Connect "ws://a"; Connect "ws://a"; EvClose 0%nat 0] (boot 5) = Some c1 /\
     pending_timers c1 = 1%nat /\
     step (Close 1000 "bye") c1 = Some c2 /\
     pending_timers c2 = 0%nat /\ opened_transports c2 = 2%nat /\
     run [EvClose 1%nat 0; EvTimeout 2%nat] c2 = Some c3 /\
     opened_transports c3 = 3%nat).
Proof.
  split; eexists; eexists; eexists.
  - split; [vm_compute; reflexivity|]. split; [reflexivity|].
    split; [vm_compute; reflexivity|]. split; [reflexivity|]. split; [reflexivity|].
    split; [vm_compute; reflexivity|]. reflexivity.
  - split; [vm_compute; reflexivity|]. split; [reflexivity|].
    split; [vm_compute; reflexivity|]. split; [reflexivity|]. split; [reflexivity|].
    split; [vm_compute; reflexivity|]. reflexivity.
Qed.

(** * Further properties of the code *)

(** ** The jitter draw and the backoff schedule *)

Lemma _getRandomInt_jitter (rnd : Z) :
  _getRandomInt rnd (-2) 2 = rnd / 2 ^ 51 - 2.
Proof.
  unfold _getRandomInt, Math_ceil, Math_floor, RAND_DEN.
  rewrite Z.div_add by lia.
  replace (2 - -2) with 4 by lia.
  replace (2 ^ 53) with (4 * 2 ^ 51) by reflexivity.
  rewrite (Z.mul_comm rnd 4).
  rewrite Z.div_mul_cancel_l by lia. lia.
Qed.

(** X1. The jitter is uniform: each of the four values -2, -1, 0, 1 is drawn
    for exactly one quarter of the range of [Math.random()]; value [j] is
    drawn exactly when [(j + 2) / 4 <= Math.random() < (j + 3) / 4]. *)
Theorem jitter_uniform (rnd j : Z) :
  valid_draw rnd ->
  (_getRandomInt rnd (-2) 2 = j <->
   -2 <= j < 2 /\ (j + 2) * 2 ^ 51 <= rnd < (j + 3) * 2 ^ 51).
Proof.
  intros [H0 H1]. unfold RAND_DEN in H1. rewrite _getRandomInt_jitter.
  assert (Hp : 0 < 2 ^ 51) by reflexivity.
  assert (H53 : 2 ^ 53 = 4 * 2 ^ 51) by reflexivity.
  pose proof (Z.div_mod rnd (2 ^ 51) ltac:(lia)) as Hd.
  pose proof (Z.mod_pos_bound rnd (2 ^ 51) Hp) as Hm.
  split.
  - intros <-. split; nia.
  - intros [Hj Hr]. nia.
Qed.

Lemma jitter_uniform_witness :
  _getRandomInt (3 * 2 ^ 51) (-2) 2 = 1 <->
  -2 <= 1 < 2 /\ (1 + 2) * 2 ^ 51 <= 3 * 2 ^ 51 < (1 + 3) * 2 ^ 51.
Proof.
  apply (jitter_uniform (3 * 2 ^ 51) 1).
  split; vm_compute; [discriminate|reflexivity].
Defined.

(** X3. The backoff schedule with the constants 2, 30, 2, 2: for the same
    draw the delay never decreases when the retry count grows; up to retry
    count 13 the cap is never reached and the delay is [2 + 2k + j]; from
    retry count 15 on the delay is exactly 30 seconds whatever the draw. *)
Theorem backoff_schedule (q q' : QuickWs) (rnd : Z) :
  default_timeouts q -> default_timeouts q' -> valid_draw rnd ->
  let k := _currentRetry q in
  let j := _getRandomInt rnd (-2) 2 in
  (k <= _currentRetry q' -> waitTimeSecs q rnd <= waitTimeSecs q' rnd) /\
  (k <= 13 -> waitTimeSecs q rnd = 2 + 2 * k + j /\ waitTimeSecs q rnd < 30) /\
  (15 <= k -> waitTimeSecs q rnd = 30).
Proof.
  intros Hd Hd' Hv k j.
  assert (Hj : -2 <= j < 2) by (apply jitter_draw_range; exact Hv).
  rewrite (waitTimeSecs_default q rnd Hd), (waitTimeSecs_default q' rnd Hd').
  fold j. fold k. repeat split; intros; lia.
Qed.

Lemma backoff_schedule_witness :
  waitTimeSecs (set_currentRetry 15 (constructor 5)) 0 = 30.
Proof.
  refine (proj2 (proj2 (backoff_schedule (set_currentRetry 15 (constructor 5))
                          (constructor 5) 0 _ _ _)) _).
  - unfold default_timeouts; cbn; auto.
  - unfold default_timeouts; cbn; auto.
  - split; vm_compute; [discriminate|reflexivity].
  - cbn. lia.
Defined.

(** ** Invariants of executions *)

Lemma run_app (xs ys : list Input) (c : Config) :
  run (xs ++ ys) c =
  match run xs c with Some c' => run ys c' | None => None end.
Proof.
  revert c; induction xs as [|i xs IH]; intros c; cbn; [reflexivity|].
  destruct (step i c); [apply IH|reflexivity].
Qed.

Lemma run_reachable (inputs : list Input) :
  forall c c', reachable c -> run inputs c = Some c' -> reachable c'.
Proof.
  induction inputs as [|i inputs IH]; cbn; intros c c' Hr H.
  - inversion H; subst; exact Hr.
  - destruct (step i c) as [c1|] eqn:E; [|discriminate].
    apply (IH c1 c'); [|exact H]. eapply reach_step; eauto.
Qed.

Lemma waitTimeSecs_bounds (q : QuickWs) (rnd : Z) :
  default_timeouts q -> valid_draw rnd -> 0 <= _currentRetry q ->
  0 <= waitTimeSecs q rnd <= 30.
Proof.
  intros Hd Hv Hk. rewrite (waitTimeSecs_default q rnd Hd).
  pose proof (jitter_draw_range rnd Hv). lia.
Qed.

Lemma step_timers_detail (i : Input) (c c' : Config) :
  step i c = Some c' ->
  timers c' = timers c \/
  (exists t, timers c' = remove_timer t (timers c)) \/
  (exists h w rnd,
     i = EvClose h rnd /\ nth_error (sockets c) h = Some w /\ valid_draw rnd /\
     timers c' = timers c ++
       [(nextTimer c, mkTimeout (waitTimeSecs (self c) rnd * 1000) (url w))]).
Proof.
  intros Hs.
  destruct i; try (step_cases; eauto; fail).
  destruct (step_close_inv c c' h rnd Hs) as (w & Hn & Hl & Hv).
  destruct (Z_lt_le_dec (_currentRetry (self c)) (_maxRetries (self c))) as [Hk|Hk].
  - destruct (step_close_retry c h w rnd Hn Hl Hv Hk) as (c1 & H1 & _ & _ & Ht & _).
    rewrite H1 in Hs. inversion Hs; subst c1.
    right; right. exists h, w, rnd. auto.
  - destruct (step_close_broken c h w rnd Hn Hl Hv Hk) as (c1 & H1 & _ & _ & Ht & _).
    rewrite H1 in Hs. inversion Hs; subst c1. left. exact Ht.
Qed.

Lemma step_delays_bounded (i : Input) (c c' : Config) :
  reachable c -> step i c = Some c' -> delays_bounded c -> delays_bounded c'.
Proof.
  unfold delays_bounded. intros Hr Hs Hb.
  destruct (step_timers_detail i c c' Hs)
    as [Ht | [(t & Ht) | (h & w & rnd & _ & _ & Hv & Ht)]]; rewrite Ht.
  - exact Hb.
  - apply Forall_remove_timer. exact Hb.
  - apply Forall_app. split; [exact Hb|].
    constructor; [|constructor]. cbn.
    exists (waitTimeSecs (self c) rnd). split; [|reflexivity].
    apply waitTimeSecs_bounds;
      [apply reachable_default_timeouts|exact Hv|apply reachable_currentRetry_nonneg];
      exact Hr.
Qed.

(** X4. In every reachable state, every pending retry timeout was scheduled
    with a delay that is a whole number of seconds between 0 and 30 (0 to
    30000 ms): the object never waits a negative time nor longer than the
    cap. *)
Theorem pending_delays_bounded (c : Config) :
  reachable c ->
  Forall (fun p => exists s, 0 <= s <= 30 /\ delay_ms (snd p) = s * 1000)
         (timers c).
Proof.
  induction 1 as [m | i c c' Hr IH Hs].
  - constructor.
  - exact (step_delays_bounded i c c' Hr Hs IH).
Qed.

Lemma pending_delays_bounded_witness :
  Forall (fun p => exists s, 0 <= s <= 30 /\ delay_ms (snd p) = s * 1000)
         (timers (on_close "ws://a" 0
                    (with_sockets (set_readyState 0%nat CLOSED)
                       (connect "ws://a" (boot 5))))).
Proof.
  apply pending_delays_bounded.
  apply (reach_step (EvClose 0%nat 0) (connect "ws://a" (boot 5))).
  - apply (reach_step (Connect "ws://a") (boot 5)); [apply reach_boot|reflexivity].
  - vm_compute. reflexivity.
Defined.

(** X5. No method ever writes [_maxRetries] or changes the backoff
    constants: after any execution of an object built with
    [new QuickWs(maxRetries)], [_maxRetries] is still the constructor's
    argument and base, max, increment and jitter are 2, 30, 2, 2; and the
    retry counter is never negative. *)
Theorem configuration_is_constant (maxRetries : Z) (inputs : list Input) (c : Config) :
  run inputs (boot maxRetries) = Some c ->
  _maxRetries (self c) = maxRetries /\
  default_timeouts (self c) /\
  0 <= _currentRetry (self c).
Proof.
  intros H.
  assert (Hr : reachable c) by (eapply run_reachable; [apply reach_boot|exact H]).
  split; [|split; [apply reachable_default_timeouts; exact Hr
                  |apply reachable_currentRetry_nonneg; exact Hr]].
  assert (G : forall inputs c0 c1, run inputs c0 = Some c1 ->
                                   _maxRetries (self c1) = _maxRetries (self c0)).
  { clear. induction inputs as [|i inputs IH]; cbn; intros c0 c1 H.
    - inversion H; reflexivity.
    - destruct (step i c0) as [c'|] eqn:E; [|discriminate].
      rewrite (IH c' c1 H). apply (step_maxRetries i c0 c' E). }
  rewrite (G inputs _ _ H). reflexivity.
Qed.

Lemma configuration_is_constant_witness :
  _maxRetries (self (connect "ws://a" (boot 3))) = 3 /\
  default_timeouts (self (connect "ws://a" (boot 3))) /\
  0 <= _currentRetry (self (connect "ws://a" (boot 3))).
Proof.
  apply (configuration_is_constant 3 [Connect "ws://a"]). reflexivity.
Defined.

(** ** What opens a transport, what calls a callback *)




Lemma step_calls (i : Input) (c c' : Config) :
  step i c = Some c' ->
  (established_calls c' <= established_calls c + if is_EvOpen i then 1 else 0)%nat /\
  (established_calls c <= established_calls c')%nat /\
  (broken_calls c' <= broken_calls c + if is_EvClose i then 1 else 0)%nat /\
  (broken_calls c <= broken_calls c')%nat /\
  (message_calls c' <= message_calls c + if is_EvMessage i then 1 else 0)%nat /\
  (message_calls c <= message_calls c')%nat.
Proof.
  unfold established_calls, broken_calls, message_calls. intros Hs.
  destruct i; step_cases; lia.
Qed.

(** X7. Application callbacks are only called from their own event, at most
    once per event: over any execution the established callback is called at
    most once per [open] event, the broken callback at most once per [close]
    event and the message callback at most once per [message] event; calls of
    [connect], [close] and the registration methods, [error] events and
    timeouts call none of them. *)
Theorem callbacks_follow_events (inputs : list Input) (c c' : Config) :
  run inputs c = Some c' ->
  (established_calls c <= established_calls c'
   <= established_calls c + count_inputs is_EvOpen inputs)%nat /\
  (broken_calls c <= broken_calls c'
   <= broken_calls c + count_inputs is_EvClose inputs)%nat /\
  (message_calls c <= message_calls c'
   <= message_calls c + count_inputs is_EvMessage inputs)%nat.
Proof.
  revert c; induction inputs as [|i inputs IH]; cbn; intros c H.
  - inversion H; subst. unfold count_inputs; cbn. lia.
  - destruct (step i c) as [c1|] eqn:E; [|discriminate].
    pose proof (IH c1 H) as G. pose proof (step_calls i c c1 E) as S.
    unfold count_inputs in *; cbn.
    destruct i; cbn in *; lia.
Qed.

Lemma callbacks_follow_events_witness :
  (broken_calls (connect "ws://a" (boot 5))
   <= broken_calls (close 1000 "bye" (connect "ws://a" (boot 5)))
   <= broken_calls (connect "ws://a" (boot 5))
      + count_inputs is_EvClose [Close 1000 "bye"])%nat.
Proof.
  refine (proj1 (proj2 (callbacks_follow_events [Close 1000 "bye"]
                          (connect "ws://a" (boot 5)) _ _))).
  reflexivity.
Defined.

Lemma step_callbacks (i : Input) (c c' : Config) :
  step i c = Some c' -> is_registration i = false ->
  callbacks (self c') = callbacks (self c).
Proof.
  unfold callbacks. intros Hs Hi.
  destruct i; try discriminate; step_cases; congruence.
Qed.

(** X8. Registered callbacks stay registered: nothing but the three
    registration methods changes the callback slots.  In particular
    [connect], [close], the retry logic and every event leave them as they
    were, so a connection that is closed and connected again keeps its
    callbacks. *)
Theorem callbacks_persist (inputs : list Input) (c c' : Config) :
  run inputs c = Some c' ->
  forallb (fun i => negb (is_registration i)) inputs = true ->
  _onConnectionEstablished (self c') = _onConnectionEstablished (self c) /\
  _onConnectionBroken (self c') = _onConnectionBroken (self c) /\
  _onMessageReceived (self c') = _onMessageReceived (self c).
Proof.
  revert c; induction inputs as [|i inputs IH]; cbn; intros c H Hf.
  - inversion H; subst. auto.
  - destruct (step i c) as [c1|] eqn:E; [|discriminate].
    apply andb_true_iff in Hf. destruct Hf as [Hi Hf].
    apply negb_true_iff in Hi.
    pose proof (step_callbacks i c c1 E Hi) as S. unfold callbacks in S.
    inversion S as [[S1 S2 S3]].
    destruct (IH c1 H Hf) as (G1 & G2 & G3).
    repeat split; congruence.
Qed.

Lemma callbacks_persist_witness :
  exists c',
    run [Connect "ws://a"; EvOpen 0%nat; Close 1000 "bye"; Connect "ws://b"]
        (onMessageReceived 3%nat (boot 5)) = Some c' /\
    _onMessageReceived (self c') = Some 3%nat.
Proof.
  eexists. split; [vm_compute; reflexivity|].
  refine (proj2 (proj2 (callbacks_persist
            [Connect "ws://a"; EvOpen 0%nat; Close 1000 "bye"; Connect "ws://b"]
            (onMessageReceived 3%nat (boot 5)) _ _ _))).
  - vm_compute. reflexivity.
  - reflexivity.
Defined.

(** ** What [close] does, by cases *)

Lemma close_accepted (c : Config) (h : handle) (code : Z) (reason : string) :
  _socket (self c) = Some h -> close_accepts code reason = true ->
  close code reason c =
  with_self (set_socket None)
    (let c1 := emit (ESocketClose h code reason) (_resetRetries c) in
     match nth_error (sockets c1) h with
     | Some w =>
         match readyState w with
         | CONNECTING | OPEN => with_sockets (set_readyState h CLOSING) c1
         | CLOSING | CLOSED => c1
         end
     | None => c1
     end).
Proof.
  intros Hs Ha. unfold close_accepts in Ha. apply andb_true_iff in Ha.
  destruct Ha as [Hc Hr].
  unfold close. rewrite Hs. unfold WebSocket_close. rewrite Hc, Hr. reflexivity.
Qed.

Lemma close_thrown (c : Config) (h : handle) (code : Z) (reason : string) :
  _socket (self c) = Some h -> close_accepts code reason = false ->
  close code reason c =
  emit (EThrow (if valid_close_code code then SyntaxError else InvalidAccessError))
       (_resetRetries c).
Proof.
  intros Hs Ha. unfold close_accepts in Ha.
  unfold close. rewrite Hs. unfold WebSocket_close.
  destruct (valid_close_code code); cbn in *; [|reflexivity].
  rewrite Ha. reflexivity.
Qed.

Lemma close_sockets_spec (c : Config) (h : handle) (code : Z) (reason : string) :
  _socket (self c) = Some h -> close_accepts code reason = true ->
  (forall w, nth_error (sockets c) h = Some w ->
             nth_error (sockets (close code reason c)) h =
             Some (mkWebSocket (url w)
                     match readyState w with
                     | CONNECTING | OPEN => CLOSING
                     | s => s
                     end)) /\
  (forall h', h' <> h ->
              nth_error (sockets (close code reason c)) h' = nth_error (sockets c) h').
Proof.
  intros Hs Ha. rewrite (close_accepted c h code reason Hs Ha). cbn.
  rewrite _resetRetries_sockets.
  split.
  - intros w Hn. rewrite Hn.
    destruct w as [u s]; cbn.
    destruct s; cbn; rewrite ?_resetRetries_sockets;
      try (apply (nth_error_set_readyState_same h CLOSING _ _ Hn));
      exact Hn.
  - intros h' Hne.
    destruct (nth_error (sockets c) h) as [w|]; cbn;
      [|rewrite _resetRetries_sockets; reflexivity].
    destruct (readyState w); cbn; rewrite ?_resetRetries_sockets;
      try reflexivity;
      apply nth_error_set_readyState_other; congruence.
Qed.

Lemma close_sockets_cases (c : Config) (code : Z) (reason : string) :
  sockets (close code reason c) = sockets c \/
  exists h, sockets (close code reason c) = set_readyState h CLOSING (sockets c).
Proof.
  destruct (_socket (self c)) as [h|] eqn:Hs;
    [|unfold close; rewrite Hs; auto].
  destruct (close_accepts code reason) eqn:Ha.
  - rewrite (close_accepted c h code reason Hs Ha). cbn.
    rewrite _resetRetries_sockets.
    destruct (nth_error (sockets c) h) as [w|]; cbn;
      [|rewrite _resetRetries_sockets; auto].
    destruct (readyState w); cbn; rewrite _resetRetries_sockets; eauto.
  - rewrite (close_thrown c h code reason Hs Ha). cbn.
    rewrite _resetRetries_sockets. auto.
Qed.

(** ** Addresses *)

Lemma Forall_set_readyState (P : string -> Prop) (h : handle) (s : ReadyState)
      (l : list WebSocket) :
  Forall (fun w => P (url w)) l ->
  Forall (fun w => P (url w)) (set_readyState h s l).
Proof.
  revert h; induction l as [|w l IH]; intros h H; destruct h; cbn;
    inversion H; subst; constructor; auto.
Qed.

Lemma find_timer_In (t : timer_id) (x : Timeout) (l : list (timer_id * Timeout)) :
  find_timer t l = Some x -> In (t, x) l.
Proof.
  induction l as [|[t' y] l IH]; cbn; [discriminate|].
  destruct (Nat.eqb_spec t t'); [intros [= ->]; subst; auto|auto].
Qed.


Lemma step_sockets_detail (i : Input) (c c' : Config) :
  step i c = Some c' ->
  sockets c' = sockets c \/
  (exists h s, sockets c' = set_readyState h s (sockets c)) \/
  (exists wsUri, i = Connect wsUri /\
                 sockets c' = sockets c ++ [mkWebSocket wsUri CONNECTING]) \/
  (exists t x, i = EvTimeout t /\ find_timer t (timers c) = Some x /\
               sockets c' = sockets c ++ [mkWebSocket (reopen_uri x) CONNECTING]).
Proof.
  intros Hs. destruct i.
  - right; right; left. exists wsUri. split; [reflexivity|].
    unfold step in Hs. inversion Hs; subst.
    apply (connect_spec wsUri c).
  - unfold step in Hs. inversion Hs; subst.
    destruct (close_sockets_cases c code reason) as [E | (h & E)]; eauto.
  - step_cases; auto.
  - step_cases; auto.
  - step_cases; auto.
  - step_cases; auto.
  - step_cases; auto.
  - unfold step in Hs.
    destruct (nth_error (sockets c) h) as [w|] eqn:Hn; [|discriminate].
    destruct (readyState w) eqn:Hr; try discriminate.
    destruct (step_open c h w Hn Hr) as (c1 & H1 & _ & Hso & _).
    unfold step in H1. rewrite Hn, Hr in H1. rewrite H1 in Hs.
    inversion Hs; subst. eauto.
  - step_cases; auto.
  - destruct (step_close_inv c c' h rnd Hs) as (w & Hn & Hl & Hv).
    destruct (Z_lt_le_dec (_currentRetry (self c)) (_maxRetries (self c))) as [Hk|Hk].
    + destruct (step_close_retry c h w rnd Hn Hl Hv Hk) as (c1 & H1 & _ & Hso & _).
      rewrite H1 in Hs. inversion Hs; subst. eauto.
    + destruct (step_close_broken c h w rnd Hn Hl Hv Hk) as (c1 & H1 & _ & Hso & _).
      rewrite H1 in Hs. inversion Hs; subst. eauto.
  - step_cases; auto.
  - pose proof Hs as Hs'. unfold step in Hs'.
    destruct (find_timer t (timers c)) as [x|] eqn:Hf; [|discriminate].
    destruct (step_timeout c t x Hf) as (c1 & H1 & _ & Hso & _).
    rewrite H1 in Hs. inversion Hs; subst.
    right; right; right. exists t, x. auto.
Qed.

Lemma Forall_weaken_In {A : Type} (f : A -> string) (U V : list string) (l : list A) :
  (forall u, In u U -> In u V) ->
  Forall (fun a => In (f a) U) l -> Forall (fun a => In (f a) V) l.
Proof. intros HUV. apply Forall_impl. intros a. apply HUV. Qed.

Lemma step_uris_within (U : list string) (i : Input) (c c' : Config) :
  step i c = Some c' -> uris_within U c ->
  uris_within (U ++ connect_uris [i]) c'.
Proof.
  intros Hs [Hso Hti].
  assert (HU : forall u, In u U -> In u (U ++ connect_uris [i]))
    by (intros; apply in_or_app; auto).
  pose proof (Forall_weaken_In url _ _ _ HU Hso) as Hso'.
  pose proof (Forall_weaken_In (fun p => reopen_uri (snd p)) _ _ _ HU Hti) as Hti'.
  split.
  - destruct (step_sockets_detail i c c' Hs)
      as [E | [(h & s & E) | [(u & Hi & E) | (t & x & Hi & Hf & E)]]]; rewrite E.
    + exact Hso'.
    + apply (Forall_set_readyState (fun u => In u (U ++ connect_uris [i]))).
      exact Hso'.
    + apply Forall_app. split; [exact Hso'|].
      constructor; [|constructor]. subst i. cbn.
      apply in_or_app. right. left. reflexivity.
    + apply Forall_app. split; [exact Hso'|].
      constructor; [|constructor]. cbn.
      apply find_timer_In in Hf.
      rewrite Forall_forall in Hti'. apply (Hti' (t, x) Hf).
  - destruct (step_timers_detail i c c' Hs)
      as [E | [(t & E) | (h & w & rnd & _ & Hn & _ & E)]]; rewrite E.
    + exact Hti'.
    + apply Forall_remove_timer. exact Hti'.
    + apply Forall_app. split; [exact Hti'|].
      constructor; [|constructor]. cbn.
      rewrite Forall_forall in Hso'. apply Hso'.
      apply nth_error_In with (n := h). exact Hn.
Qed.

Lemma run_uris_within (inputs : list Input) :
  forall U c c', run inputs c = Some c' -> uris_within U c ->
                 uris_within (U ++ connect_uris inputs) c'.
Proof.
  induction inputs as [|i inputs IH]; cbn; intros U c c' H HU.
  - inversion H; subst. rewrite app_nil_r. exact HU.
  - destruct (step i c) as [c1|] eqn:E; [|discriminate].
    pose proof (IH _ c1 c' H (step_uris_within U i c c1 E HU)) as G.
    change (connect_uris (i :: inputs))
      with (connect_uris [i] ++ connect_uris inputs) in *.
    destruct G as [G1 G2]. split.
    + eapply Forall_weaken_In; [|exact G1].
      intros u. rewrite <- app_assoc. cbn [connect_uris flat_map].
      rewrite app_nil_r. auto.
    + eapply Forall_weaken_In; [|exact G2].
      intros u. rewrite <- app_assoc. cbn [connect_uris flat_map].
      rewrite app_nil_r. auto.
Qed.

(** X9. The object only ever connects to addresses the caller gave it: after
    any execution of a new object, the address of every WebSocket it created
    (first attempts and automatic retries alike) and the address every
    pending retry will reopen is one that was passed to [connect]. *)
Theorem only_given_addresses (maxRetries : Z) (inputs : list Input) (c : Config) :
  run inputs (boot maxRetries) = Some c ->
  (forall w, In w (sockets c) -> In (url w) (connect_uris inputs)) /\
  (forall t x, In (t, x) (timers c) -> In (reopen_uri x) (connect_uris inputs)).
Proof.
  intros H.
  destruct (run_uris_within inputs [] (boot maxRetries) c H) as [G1 G2].
  { split; constructor. }
  cbn [app] in G1, G2. rewrite Forall_forall in G1, G2.
  split; [exact G1|]. intros t x Hin. exact (G2 (t, x) Hin).
Qed.

Lemma only_given_addresses_witness :
  exists c,
    run [Connect "ws://a"; EvClose 0%nat 0; EvTimeout 1%nat] (boot 5) = Some c /\
    forall w, In w (sockets c) ->
              In (url w)
                 (connect_uris [Connect "ws://a"; EvClose 0%nat 0; EvTimeout 1%nat]).
Proof.
  eexists. split; [vm_compute; reflexivity|].
  refine (proj1 (only_given_addresses 5
            [Connect "ws://a"; EvClose 0%nat 0; EvTimeout 1%nat] _ _)).
  vm_compute. reflexivity.
Defined.

(** ** [close] and the [open] event *)

(** X10. [close] is idempotent once it went through: when
    [WebSocket.close] accepts the code and reason of the first call (code
    1000 or 3000..4999, reason of at most 123 bytes), or when there was no
    handle, a second call right after it changes nothing, whatever its own
    code and reason; and on an object that never connected [close] does
    nothing at all, whatever its arguments. *)
Theorem close_idempotent (c : Config) (code code' : Z) (reason reason' : string) :
  (close_accepts code reason = true \/ _socket (self c) = None ->
   close code' reason' (close code reason c) = close code reason c) /\
  forall maxRetries, close code reason (boot maxRetries) = boot maxRetries.
Proof.
  split; [|reflexivity].
  intros Hok.
  destruct (_socket (self c)) as [h|] eqn:E.
  - destruct Hok as [Ha|Hn]; [|discriminate].
    destruct (close_spec code reason c h E) as (s & Hq & Hs & _).
    rewrite Ha in Hs. subst s.
    unfold close at 1. rewrite Hq. reflexivity.
  - unfold close. rewrite E. rewrite E. reflexivity.
Qed.

Lemma close_idempotent_witness :
  close 1005 "clean shutdown" (close 1000 "bye" (connect "ws://a" (boot 5)))
  = close 1000 "bye" (connect "ws://a" (boot 5)).
Proof.
  refine (proj1 (close_idempotent (connect "ws://a" (boot 5)) 1000 1005
                   "bye" "clean shutdown") _).
  left. reflexivity.
Defined.

(** X11. What [close(code, reason)] does to a connection that has a handle.
    In every case it sets the counter to 0 and cancels the recorded timeout
    if there is one, and calls no application callback and no log sink.
    When [WebSocket.close] accepts the code and the reason (code 1000 or
    3000..4999, reason of at most 123 bytes), it is called on the current
    handle with exactly that code and reason; afterwards the handle field is
    null, the current socket is closing if it was connecting or open and
    otherwise keeps its state, and every other socket is untouched.
    Otherwise [WebSocket.close] throws ([InvalidAccessError] for the code,
    else [SyntaxError] for the reason) and the exception leaves [close]: the
    handle field still holds the socket and no socket changes state.  The
    defaults of [close], code 1005 and reason 'clean shutdown', are of the
    second kind. *)
Theorem close_effect (c : Config) (h : handle) (code : Z) (reason : string) :
  _socket (self c) = Some h ->
  let c' := close code reason c in
  let cancelled := match _retryTimer (self c) with
                   | Some t => EClearTimeout t :: trace c
                   | None => trace c
                   end in
  _currentRetry (self c') = 0 /\ _retryTimer (self c') = None /\
  (close_accepts code reason = true ->
   trace c' = ESocketClose h code reason :: cancelled /\
   _socket (self c') = None /\
   (forall w, nth_error (sockets c) h = Some w ->
              nth_error (sockets c') h =
              Some (mkWebSocket (url w)
                      match readyState w with
                      | CONNECTING | OPEN => CLOSING
                      | s => s
                      end)) /\
   (forall h', h' <> h -> nth_error (sockets c') h' = nth_error (sockets c) h')) /\
  (close_accepts code reason = false ->
   trace c' = EThrow (if valid_close_code code then SyntaxError
                      else InvalidAccessError) :: cancelled /\
   _socket (self c') = Some h /\
   sockets c' = sockets c) /\
  close_accepts 1005 "clean shutdown" = false.
Proof.
  intros Hs c' cancelled. subst c' cancelled.
  destruct (close_spec code reason c h Hs) as (s & Hq & Hsv & _).
  split; [rewrite Hq; reflexivity|]. split; [rewrite Hq; reflexivity|].
  split; [|split; [|reflexivity]].
  - intros Ha. rewrite Ha in Hsv. subst s.
    split; [|split; [rewrite Hq; reflexivity
                    |exact (close_sockets_spec c h code reason Hs Ha)]].
    rewrite (close_accepted c h code reason Hs Ha).
    unfold _resetRetries; cbn.
    destruct (_retryTimer (self c)); cbn;
      destruct (nth_error (sockets c) h) as [w|]; cbn;
      try destruct (readyState w); reflexivity.
  - intros Ha. rewrite Ha in Hsv. subst s.
    split; [|split; [rewrite Hq; reflexivity|]].
    + rewrite (close_thrown c h code reason Hs Ha).
      unfold _resetRetries; cbn.
      destruct (_retryTimer (self c)); reflexivity.
    + rewrite (close_thrown c h code reason Hs Ha). cbn.
      apply _resetRetries_sockets.
Qed.

Lemma close_effect_witness :
  trace (close 1000 "bye" (connect "ws://a" (boot 5))) =
    ESocketClose 0%nat 1000 "bye" :: trace (connect "ws://a" (boot 5)) /\
  trace (close 1005 "clean shutdown" (connect "ws://a" (boot 5))) =
    EThrow InvalidAccessError :: trace (connect "ws://a" (boot 5)) /\
  _socket (self (close 1005 "clean shutdown" (connect "ws://a" (boot 5))))
    = Some 0%nat.
Proof.
  pose proof (close_effect (connect "ws://a" (boot 5)) 0%nat 1000 "bye" eq_refl)
    as (_ & _ & Hok & _ & _).
  pose proof (close_effect (connect "ws://a" (boot 5)) 0%nat 1005
                "clean shutdown" eq_refl) as (_ & _ & _ & Hthrow & _).
  destruct (Hok eq_refl) as (Ht & _).
  destruct (Hthrow eq_refl) as (Ht' & Hs' & _).
  split; [exact Ht|]. split; [exact Ht'|exact Hs'].
Defined.

(** X12. An [open] event on a connecting socket: the socket becomes open,
    the retry counter goes back to 0 and the recorded timeout, if any, is
    cancelled; the established callback, if registered, is called exactly
    once, with the connection's handle field; if none is registered nothing
    is called.  The handle field and the callback slots are unchanged. *)
Theorem open_event_effect (c : Config) (h : handle) (w : WebSocket) :
  nth_error (sockets c) h = Some w -> readyState w = CONNECTING ->
  exists c',
    step (EvOpen h) c = Some c' /\
    nth_error (sockets c') h = Some (mkWebSocket (url w) OPEN) /\
    _currentRetry (self c') = 0 /\ _retryTimer (self c') = None /\
    _socket (self c') = _socket (self c) /\
    callbacks (self c') = callbacks (self c) /\
    trace c' =
      let cancelled := match _retryTimer (self c) with
                       | Some t => EClearTimeout t :: trace c
                       | None => trace c
                       end in
      match _onConnectionEstablished (self c) with
      | Some cb => EEstablished cb (_socket (self c)) :: cancelled
      | None => cancelled
      end.
Proof.
  intros Hn Hr.
  destruct (step_open c h w Hn Hr) as (c' & H & Hq & Hso & _).
  exists c'. split; [exact H|].
  split; [rewrite Hso; apply nth_error_set_readyState_same; exact Hn|].
  split; [rewrite Hq; reflexivity|]. split; [rewrite Hq; reflexivity|].
  split; [rewrite Hq; reflexivity|]. split; [rewrite Hq; reflexivity|].
  unfold step in H. rewrite Hn, Hr in H. inversion H; subst c'.
  destruct_config c.
  unfold on_open, _resetRetries; cbn.
  destruct t, e; reflexivity.
Qed.

Lemma open_event_effect_witness :
  let c := connect "ws://a" (onConnectionEstablished 4%nat (boot 5)) in
  exists c',
    step (EvOpen 0%nat) c = Some c' /\
    trace c' = EEstablished 4%nat (Some 0%nat) :: trace c.
Proof.
  intros c.
  destruct (open_event_effect c 0%nat (mkWebSocket "ws://a" CONNECTING)
              ltac:(vm_compute; reflexivity) ltac:(reflexivity))
    as (c' & H & _ & _ & _ & _ & _ & Ht).
  exists c'. split; [exact H|exact Ht].
Defined.

(** ** The recorded handle and timeout exist *)

Lemma step_handles_valid (i : Input) (c c' : Config) :
  step i c = Some c' -> handles_valid c -> handles_valid c'.
Proof.
  unfold handles_valid. intros Hs [H1 H2].
  destruct i; step_cases; split; intros ? E; try discriminate;
    try (inversion E; subst);
    rewrite ?length_app, ?set_readyState_length; cbn;
    try (specialize (H1 _ eq_refl)); try (specialize (H2 _ eq_refl));
    auto; try lia; try congruence; try (apply H2; congruence).
Qed.

(** X13. The object never holds a dangling reference: in every reachable
    state the handle in [_socket], if any, is a WebSocket this object
    created, the identifier in [_retryTimer], if any, was returned by an
    earlier [setTimeout], and the pending timeouts all carry identifiers
    handed out earlier. *)
Theorem references_exist (c : Config) :
  reachable c ->
  (forall h, _socket (self c) = Some h ->
             exists w, nth_error (sockets c) h = Some w) /\
  (forall t, _retryTimer (self c) = Some t -> (t < nextTimer c)%nat) /\
  (forall t x, In (t, x) (timers c) -> (t < nextTimer c)%nat).
Proof.
  intros Hr.
  assert (Hv : handles_valid c).
  { induction Hr as [m | i c c' _ IH Hs].
    - split; cbn; discriminate.
    - eapply step_handles_valid; eauto. }
  destruct Hv as [H1 H2]. split; [|split; [exact H2|]].
  - intros h E. specialize (H1 h E).
    destruct (nth_error (sockets c) h) as [w|] eqn:Hn; [eauto|].
    apply nth_error_None in Hn. lia.
  - intros t x Hin. pose proof (reachable_timers_fresh c Hr) as Hf.
    unfold timers_fresh in Hf. rewrite Forall_forall in Hf.
    exact (Hf (t, x) Hin).
Qed.

Lemma references_exist_witness :
  exists w, nth_error (sockets (connect "ws://a" (boot 5))) 0%nat = Some w.
Proof.
  refine (proj1 (references_exist (connect "ws://a" (boot 5)) _) 0%nat eq_refl).
  apply (reach_step (Connect "ws://a") (boot 5)); [apply reach_boot|reflexivity].
Defined.

(** ** Logging does not interfere *)

Lemma step_without_logs (i : Input) (c : Config) :
  option_map without_logs (step i c) = step (mute i) (without_logs c).
Proof.
  destruct_config c;
    destruct i as [u | code reason | cb | cb | cb | cb | cb | h | h | h rnd
                  | h data | tm];
    unfold without_logs; cbn.
  - unfold connect, _reopenSocket, _resetRetries, _logDebug; cbn.
    destruct t, ld; reflexivity.
  - unfold close, WebSocket_close, _resetRetries; cbn.
    destruct s as [h|]; [|reflexivity]. cbn.
    destruct (valid_close_code code); cbn;
      [destruct (valid_close_reason reason); cbn|];
      destruct t; cbn; try reflexivity;
      destruct (nth_error ss h) as [w|]; cbn;
      try destruct (readyState w); reflexivity.
  - reflexivity.
  - reflexivity.
  - reflexivity.
  - reflexivity.
  - reflexivity.
  - destruct (nth_error ss h) as [w|]; [|reflexivity].
    destruct (readyState w); try reflexivity.
    unfold on_open, _resetRetries; cbn.
    destruct t, e; reflexivity.
  - destruct (nth_error ss h) as [w|]; [|reflexivity].
    destruct (is_live w); [|reflexivity].
    unfold on_error, _logError; cbn. destruct le; reflexivity.
  - destruct (nth_error ss h) as [w|]; [|reflexivity].
    destruct (is_live w); [|reflexivity].
    destruct ((0 <=? rnd) && (rnd <? RAND_DEN)) eqn:Hv.
    + change (valid_drawb rnd) with ((0 <=? rnd) && (rnd <? RAND_DEN)).
      rewrite Hv. cbn.
      unfold on_close, _retryConnectionLogic, _logDebug, _logError; cbn.
      destruct ld; cbn; destruct (k >=? m); cbn;
        destruct le, br; reflexivity.
    + change (valid_drawb rnd) with ((0 <=? rnd) && (rnd <? RAND_DEN)).
      rewrite Hv. reflexivity.
  - destruct (nth_error ss h) as [w|]; [|reflexivity].
    destruct (readyState w); try reflexivity.
    unfold on_message; cbn. destruct ms; reflexivity.
  - destruct (find_timer tm ts) as [x|]; [|reflexivity].
    unfold on_timeout, _reopenSocket, _logDebug; cbn.
    destruct ld; reflexivity.
Qed.

(** X14. The log sinks are transparent: running an execution with debug and
    error sinks registered and then erasing the sinks and the log entries
    gives exactly the configuration (object fields, sockets, timeouts,
    transport calls and application callbacks, in the same order) obtained
    by running the same execution with no sink ever registered; and the one
    is possible exactly when the other is. *)
Theorem logging_is_transparent (inputs : list Input) (c : Config) :
  option_map without_logs (run inputs c) =
  run (map mute inputs) (without_logs c).
Proof.
  revert c; induction inputs as [|i inputs IH]; intros c; cbn [run map].
  - reflexivity.
  - rewrite <- step_without_logs.
    destruct (step i c) as [c1|]; cbn [option_map]; [apply IH|reflexivity].
Qed.

(** ** Executions that connect only when nothing is live *)

Lemma step_counter_bound (i : Input) (c c' : Config) :
  step i c = Some c' ->
  (forall wsUri, i = Connect wsUri -> live_handles c = 0%nat) ->
  single_track c ->
  (0 <= _currentRetry (self c) <= Z.max 1 (_maxRetries (self c)) /\
   (timers c <> [] -> _currentRetry (self c) < _maxRetries (self c))) ->
  0 <= _currentRetry (self c') <= Z.max 1 (_maxRetries (self c')) /\
  (timers c' <> [] -> _currentRetry (self c') < _maxRetries (self c')).
Proof.
  intros Hs Hd J [Hk Ht]. pose proof (single_track_reset_timers c J) as Hreset.
  destruct i; unfold step in Hs.
  - inversion Hs; subst c'. destruct (connect_spec wsUri c) as (Hq & _ & Hti & _).
    rewrite Hti, Hreset, Hq. cbn. split; [lia|congruence].
  - inversion Hs; subst c'.
    destruct (_socket (self c)) as [h|] eqn:E.
    + destruct (close_spec code reason c h E) as (s & Hq & _ & Hti & _).
      rewrite Hti, Hreset, Hq. cbn. split; [lia|congruence].
    + unfold close. rewrite E. auto.
  - inversion Hs; subst c'. cbn. auto.
  - inversion Hs; subst c'. cbn. auto.
  - inversion Hs; subst c'. cbn. auto.
  - inversion Hs; subst c'. cbn. auto.
  - inversion Hs; subst c'. cbn. auto.
  - destruct (nth_error (sockets c) h) as [w|] eqn:Hn; [|discriminate].
    destruct (readyState w) eqn:Hr; try discriminate.
    destruct (step_open c h w Hn Hr) as (c1 & H1 & Hq & _ & Hti & _).
    unfold step in H1. rewrite Hn, Hr in H1. rewrite H1 in Hs. inversion Hs; subst c1.
    rewrite Hti, Hreset, Hq. cbn. split; [lia|congruence].
  - destruct (nth_error (sockets c) h) as [w|]; [|discriminate].
    destruct (is_live w); [|discriminate].
    inversion Hs; subst c'. unfold on_error, _logError.
    destruct (logErrorCallback (self c)); cbn; auto.
  - destruct (nth_error (sockets c) h) as [w|] eqn:Hn; [|discriminate].
    destruct (is_live w) eqn:Hl; [|discriminate].
    destruct (valid_drawb rnd) eqn:Hv; [|discriminate].
    cbn [andb] in Hs. pose proof Hv as Hv'. apply valid_drawb_spec in Hv'.
    destruct (Z_lt_le_dec (_currentRetry (self c)) (_maxRetries (self c))) as [Hlt|Hge].
    + destruct (step_close_retry c h w rnd Hn Hl Hv' Hlt) as (c1 & H1 & Hq & _).
      unfold step in H1. rewrite Hn, Hl, Hv in H1. cbn [andb] in H1.
      rewrite H1 in Hs. inversion Hs; subst c1.
      rewrite Hq. cbn. split; [lia|]. intros _. exact Hlt.
    + destruct (step_close_broken c h w rnd Hn Hl Hv' Hge) as (c1 & H1 & Hq & _ & Hti & _).
      unfold step in H1. rewrite Hn, Hl, Hv in H1. cbn [andb] in H1.
      rewrite H1 in Hs. inversion Hs; subst c1.
      rewrite Hq, Hti. auto.
  - destruct (nth_error (sockets c) h) as [w|]; [|discriminate].
    destruct (readyState w); try discriminate.
    inversion Hs; subst c'. unfold on_message.
    destruct (_onMessageReceived (self c)); cbn; auto.
  - destruct (find_timer t (timers c)) as [x|] eqn:Hf; [|discriminate].
    destruct (step_timeout c t x Hf) as (c1 & H1 & Hq & _ & Hti & _).
    unfold step in H1. rewrite Hf in H1. rewrite H1 in Hs. inversion Hs; subst c1.
    assert (Hne : timers c <> []) by (intros E; rewrite E in Hf; discriminate).
    specialize (Ht Hne).
    destruct J as [(Hnil & _) | (t0 & x0 & Hone & _)]; [contradiction|].
    rewrite Hone in Hf. apply find_timer_single in Hf. destruct Hf; subst.
    rewrite Hti, Hone, remove_timer_single, Hq. cbn. split; [lia|congruence].
Qed.

(** X15. In an execution in which [connect] is only called while no earlier
    socket is live, the attempt counter stays within bounds: it is never
    negative and never exceeds [maxRetries] (or 1 when [maxRetries < 1]: the
    first attempt is always made), and a retry timeout is pending only while
    the counter is still below [maxRetries]. *)
Theorem attempt_counter_bounded (c : Config) :
  disciplined c ->
  0 <= _currentRetry (self c) <= Z.max 1 (_maxRetries (self c)) /\
  (pending_timers c <> 0%nat -> _currentRetry (self c) < _maxRetries (self c)).
Proof.
  intros Hd.
  assert (G : 0 <= _currentRetry (self c) <= Z.max 1 (_maxRetries (self c)) /\
              (timers c <> [] -> _currentRetry (self c) < _maxRetries (self c))).
  { induction Hd as [m | i c c' Hd IH Hdisc Hs].
    - cbn. split; [lia|congruence].
    - apply (step_counter_bound i c c' Hs Hdisc);
        [apply disciplined_single_track; exact Hd|exact IH]. }
  destruct G as [G1 G2]. split; [exact G1|].
  intros Hp. apply G2. intros E. apply Hp. unfold pending_timers.
  rewrite E. reflexivity.
Qed.

Lemma attempt_counter_bounded_witness :
  0 <= _currentRetry (self (connect "ws://a" (boot 5)))
    <= Z.max 1 (_maxRetries (self (connect "ws://a" (boot 5)))).
Proof.
  refine (proj1 (attempt_counter_bounded (connect "ws://a" (boot 5)) _)).
  apply (disc_step (Connect "ws://a") (boot 5)).
  - apply disc_boot.
  - intros; reflexivity.
  - reflexivity.
Defined.

Lemma active_in_snoc (c : Config) (u : string) (h : handle) (w : WebSocket) :
  live_handles c = 0%nat ->
  nth_error (sockets c ++ [mkWebSocket u CONNECTING]) h = Some w ->
  readyState w = CONNECTING \/ readyState w = OPEN ->
  h = List.length (sockets c).
Proof.
  intros Hl Hn Ha.
  destruct (Nat.lt_ge_cases h (List.length (sockets c))) as [Hlt|Hge].
  - rewrite nth_error_app1 in Hn by exact Hlt.
    pose proof (no_live_nth _ Hl h w Hn) as Hd. unfold is_live in Hd.
    destruct Ha as [Ha|Ha]; rewrite Ha in Hd; discriminate.
  - assert (Hlen : (h < List.length (sockets c ++ [mkWebSocket u CONNECTING]))%nat).
    { apply nth_error_Some. rewrite Hn. discriminate. }
    rewrite length_app in Hlen. cbn in Hlen. lia.
Qed.

Lemma step_current_is_active (i : Input) (c c' : Config) :
  step i c = Some c' ->
  (forall wsUri, i = Connect wsUri -> live_handles c = 0%nat) ->
  single_track c -> current_is_active c -> current_is_active c'.
Proof.
  unfold current_is_active. intros Hs Hd J A h0 w0 Hn0 Ha0.
  destruct i; unfold step in Hs.
  - inversion Hs; subst c'. destruct (connect_spec wsUri c) as (Hq & Hso & _).
    rewrite Hso in Hn0. rewrite Hq. cbn. f_equal. symmetry.
    exact (active_in_snoc c wsUri h0 w0 (Hd wsUri eq_refl) Hn0 Ha0).
  - inversion Hs; subst c'.
    destruct (_socket (self c)) as [h|] eqn:E.
    + destruct (close_accepts code reason) eqn:Hacc.
      * exfalso.
        destruct (close_sockets_spec c h code reason E Hacc) as (Hsame & Hother).
        destruct (Nat.eq_dec h0 h) as [->|Hne].
        -- destruct (nth_error (sockets c) h) as [w|] eqn:Hn.
           ++ rewrite (Hsame w eq_refl) in Hn0. inversion Hn0; subst w0.
              cbn in Ha0.
              destruct (readyState w); destruct Ha0; discriminate.
           ++ assert (Hlen : (h < List.length (sockets (close code reason c)))%nat)
                by (apply nth_error_Some; rewrite Hn0; discriminate).
              assert (Hlen' : List.length (sockets (close code reason c))
                              = List.length (sockets c)).
              { rewrite (close_accepted c h code reason E Hacc). cbn.
                rewrite _resetRetries_sockets, Hn. cbn.
                rewrite _resetRetries_sockets. reflexivity. }
              apply nth_error_None in Hn. lia.
        -- rewrite (Hother h0 Hne) in Hn0.
           specialize (A h0 w0 Hn0 Ha0). congruence.
      * rewrite (close_thrown c h code reason E Hacc) in *. cbn in *.
        rewrite _resetRetries_sockets in Hn0.
        rewrite _resetRetries_self. cbn.
        rewrite E. exact (A h0 w0 Hn0 Ha0).
    + unfold close in *. rewrite E in *. rewrite E. exact (A h0 w0 Hn0 Ha0).
  - inversion Hs; subst c'. exact (A h0 w0 Hn0 Ha0).
  - inversion Hs; subst c'. exact (A h0 w0 Hn0 Ha0).
  - inversion Hs; subst c'. exact (A h0 w0 Hn0 Ha0).
  - inversion Hs; subst c'. exact (A h0 w0 Hn0 Ha0).
  - inversion Hs; subst c'. exact (A h0 w0 Hn0 Ha0).
  - destruct (nth_error (sockets c) h) as [w|] eqn:Hn; [|discriminate].
    destruct (readyState w) eqn:Hr; try discriminate.
    destruct (step_open c h w Hn Hr) as (c1 & H1 & Hq & Hso & _).
    unfold step in H1. rewrite Hn, Hr in H1. rewrite H1 in Hs. inversion Hs; subst c1.
    rewrite Hq. cbn. rewrite Hso in Hn0.
    destruct (Nat.eq_dec h h0) as [->|Hne].
    + apply (A h0 w Hn). left. exact Hr.
    + rewrite (nth_error_set_readyState_other h h0 OPEN _ Hne) in Hn0.
      exact (A h0 w0 Hn0 Ha0).
  - destruct (nth_error (sockets c) h) as [w|]; [|discriminate].
    destruct (is_live w); [|discriminate].
    inversion Hs; subst c'. unfold on_error, _logError in *.
    destruct (logErrorCallback (self c)); exact (A h0 w0 Hn0 Ha0).
  - destruct (nth_error (sockets c) h) as [w|] eqn:Hn; [|discriminate].
    destruct (is_live w) eqn:Hl; [|discriminate].
    destruct (valid_drawb rnd) eqn:Hv; [|discriminate].
    cbn [andb] in Hs. pose proof Hv as Hv'. apply valid_drawb_spec in Hv'.
    assert (G : _socket (self c') = _socket (self c) /\
                sockets c' = set_readyState h CLOSED (sockets c)).
    { destruct (Z_lt_le_dec (_currentRetry (self c)) (_maxRetries (self c))) as [Hlt|Hge].
      - destruct (step_close_retry c h w rnd Hn Hl Hv' Hlt) as (c1 & H1 & Hq & Hso & _).
        unfold step in H1. rewrite Hn, Hl, Hv in H1. cbn [andb] in H1.
        rewrite H1 in Hs. inversion Hs; subst c1. rewrite Hq. auto.
      - destruct (step_close_broken c h w rnd Hn Hl Hv' Hge) as (c1 & H1 & Hq & Hso & _).
        unfold step in H1. rewrite Hn, Hl, Hv in H1. cbn [andb] in H1.
        rewrite H1 in Hs. inversion Hs; subst c1. rewrite Hq. auto. }
    destruct G as [Gq Gs]. rewrite Gq. rewrite Gs in Hn0.
    destruct (Nat.eq_dec h h0) as [->|Hne].
    + rewrite (nth_error_set_readyState_same h0 CLOSED _ w Hn) in Hn0.
      inversion Hn0; subst w0. cbn in Ha0. destruct Ha0; discriminate.
    + rewrite (nth_error_set_readyState_other h h0 CLOSED _ Hne) in Hn0.
      exact (A h0 w0 Hn0 Ha0).
  - destruct (nth_error (sockets c) h) as [w|]; [|discriminate].
    destruct (readyState w); try discriminate.
    inversion Hs; subst c'. unfold on_message in *.
    destruct (_onMessageReceived (self c)); exact (A h0 w0 Hn0 Ha0).
  - destruct (find_timer t (timers c)) as [x|] eqn:Hf; [|discriminate].
    destruct (step_timeout c t x Hf) as (c1 & H1 & Hq & Hso & _).
    unfold step in H1. rewrite Hf in H1. rewrite H1 in Hs. inversion Hs; subst c1.
    assert (Hl : live_handles c = 0%nat).
    { destruct J as [(Hnil & _) | (t0 & x0 & _ & _ & Hz)]; [|exact Hz].
      rewrite Hnil in Hf. discriminate. }
    rewrite Hso in Hn0. rewrite Hq. cbn. f_equal. symmetry.
    exact (active_in_snoc c (reopen_uri x) h0 w0 Hl Hn0 Ha0).
Qed.

Lemma disciplined_current_is_active (c : Config) :
  disciplined c -> current_is_active c.
Proof.
  induction 1 as [m | i c c' Hd IH Hdisc Hs].
  - intros [|h] w Hn; discriminate.
  - apply (step_current_is_active i c c' Hs Hdisc);
      [apply disciplined_single_track; exact Hd|exact IH].
Qed.

(** X16. In an execution in which [connect] is only called while no earlier
    socket is live, a socket that is connecting or open is always the one in
    [_socket].  Hence the callbacks get the socket the event came from: a
    [message] event on socket [h] calls the message callback with [h] and
    the payload, and an [open] event on [h] calls the established callback
    with [h]. *)
Theorem callbacks_get_the_emitting_socket (c : Config) :
  disciplined c ->
  (forall h w, nth_error (sockets c) h = Some w ->
               readyState w = CONNECTING \/ readyState w = OPEN ->
               _socket (self c) = Some h) /\
  (forall h data c' cb,
     step (EvMessage h data) c = Some c' ->
     _onMessageReceived (self c) = Some cb ->
     trace c' = EMessage cb (Some h) data :: trace c) /\
  (forall h c' cb,
     step (EvOpen h) c = Some c' ->
     _onConnectionEstablished (self c) = Some cb ->
     exists rest, trace c' = EEstablished cb (Some h) :: rest).
Proof.
  intros Hd. pose proof (disciplined_current_is_active c Hd) as A.
  split; [exact A|]. split.
  - intros h data c' cb Hs Hcb. unfold step in Hs.
    destruct (nth_error (sockets c) h) as [w|] eqn:Hn; [|discriminate].
    destruct (readyState w) eqn:Hr; try discriminate.
    inversion Hs; subst c'. unfold on_message. rewrite Hcb. cbn.
    rewrite (A h w Hn (or_intror Hr)). reflexivity.
  - intros h c' cb Hs Hcb. unfold step in Hs.
    destruct (nth_error (sockets c) h) as [w|] eqn:Hn; [|discriminate].
    destruct (readyState w) eqn:Hr; try discriminate.
    inversion Hs; subst c'.
    pose proof (A h w Hn (or_introl Hr)) as Hcur.
    destruct_config c. subst. unfold on_open, _resetRetries; cbn.
    destruct t; cbn; eauto.
Qed.

Lemma callbacks_get_the_emitting_socket_witness :
  _socket (self (connect "ws://a" (boot 5))) = Some 0%nat.
Proof.
  refine (proj1 (callbacks_get_the_emitting_socket (connect "ws://a" (boot 5)) _)
            0%nat (mkWebSocket "ws://a" CONNECTING) eq_refl (or_introl eq_refl)).
  apply (disc_step (Connect "ws://a") (boot 5)).
  - apply disc_boot.
  - intros; reflexivity.
  - reflexivity.
Defined.

(** ** Registration *)


(** ** After a termination *)

Lemma no_live_only_timeouts (c : Config) (i : Input) :
  live_handles c = 0%nat -> is_host_event i = true -> step i c <> None ->
  exists t x, i = EvTimeout t /\ find_timer t (timers c) = Some x.
Proof.
  unfold live_handles. intros Hl Hi Hs.
  pose proof (no_live_nth _ Hl) as Hd.
  destruct i; try discriminate; unfold step in Hs.
  - exfalso. destruct (nth_error (sockets c) h) as [w|] eqn:Hn; [|congruence].
    specialize (Hd h w Hn). unfold is_live in Hd.
    destruct (readyState w); try congruence; discriminate.
  - exfalso. destruct (nth_error (sockets c) h) as [w|] eqn:Hn; [|congruence].
    rewrite (Hd h w Hn) in Hs. congruence.
  - exfalso. destruct (nth_error (sockets c) h) as [w|] eqn:Hn; [|congruence].
    rewrite (Hd h w Hn) in Hs. cbn in Hs. congruence.
  - exfalso. destruct (nth_error (sockets c) h) as [w|] eqn:Hn; [|congruence].
    specialize (Hd h w Hn). unfold is_live in Hd.
    destruct (readyState w); try congruence; discriminate.
  - destruct (find_timer t (timers c)) as [x|] eqn:Hf; [eauto|congruence].
Qed.

(** X18. What can happen after an attempt terminates, in an execution in
    which [connect] is only called while no earlier socket is live.  When
    the [close] event finds the counter at or above [maxRetries] (the object
    gives up), nothing is pending and nothing is live: no host event can
    occur until the caller acts.  When it finds the counter below
    [maxRetries], the only host event that can occur is the firing of the
    timeout that was just scheduled. *)
Theorem after_a_termination (c c' : Config) (h : handle) (rnd : Z) :
  disciplined c -> step (EvClose h rnd) c = Some c' ->
  (_maxRetries (self c) <= _currentRetry (self c) ->
   quiescent c' /\ pending_timers c' = 0%nat /\ live_handles c' = 0%nat) /\
  (_currentRetry (self c) < _maxRetries (self c) ->
   forall i, is_host_event i = true -> step i c' <> None ->
             i = EvTimeout (nextTimer c)).
Proof.
  intros Hd Hs. pose proof (disciplined_single_track c Hd) as J.
  destruct (step_close_inv c c' h rnd Hs) as (w & Hn & Hl & Hv).
  pose proof (live_count_closed h _ w Hn Hl) as Hcnt.
  assert (Hno : timers c = [] /\ live_handles c = 1%nat).
  { destruct J as [(Ht & _ & Hle) | (t & x & _ & _ & Hz)];
      unfold live_handles in *; [split; [auto|lia]|lia]. }
  destruct Hno as (Ht & Hone). unfold live_handles in Hone.
  split.
  - intros Hk.
    destruct (step_close_broken c h w rnd Hn Hl Hv Hk) as (c1 & H1 & _ & Hso & Hti & _).
    rewrite H1 in Hs. inversion Hs; subst c1.
    assert (Hl' : live_handles c' = 0%nat)
      by (unfold live_handles; rewrite Hso; lia).
    assert (Hp' : pending_timers c' = 0%nat)
      by (unfold pending_timers; rewrite Hti, Ht; reflexivity).
    split; [apply idle_host_quiescent; assumption|auto].
  - intros Hk i Hi Hstep.
    destruct (step_close_retry c h w rnd Hn Hl Hv Hk) as (c1 & H1 & _ & Hso & Hti & _).
    rewrite H1 in Hs. inversion Hs; subst c1.
    assert (Hl' : live_handles c' = 0%nat)
      by (unfold live_handles; rewrite Hso; lia).
    destruct (no_live_only_timeouts c' i Hl' Hi Hstep) as (t & x & -> & Hf).
    rewrite Hti, Ht in Hf. cbn [app] in Hf.
    apply find_timer_single in Hf. destruct Hf as [-> _]. reflexivity.
Qed.

Lemma after_a_termination_witness :
  quiescent (on_close "ws://a" 0
               (with_sockets (set_readyState 0%nat CLOSED)
                  (connect "ws://a" (boot 1)))).
Proof.
  refine (proj1 (proj1 (after_a_termination (connect "ws://a" (boot 1)) _
                          0%nat 0 _ _) _)).
  - apply (disc_step (Connect "ws://a") (boot 1)).
    + apply disc_boot.
    + intros; reflexivity.
    + reflexivity.
  - vm_compute. reflexivity.
  - vm_compute. discriminate.
Defined.

(** ** Calls to the host *)

Lemma step_host_calls (i : Input) (c c' : Config) :
  step i c = Some c' ->
  (socket_close_calls c' <= socket_close_calls c + if is_Close i then 1 else 0)%nat /\
  (set_timeout_calls c' <= set_timeout_calls c + if is_EvClose i then 1 else 0)%nat.
Proof.
  unfold socket_close_calls, set_timeout_calls. intros Hs.
  destruct i; step_cases; lia.
Qed.

(** X19. The object calls [close] on a socket only from its own [close]
    method, at most once per call, and schedules a timeout only from the
    [close] listener, at most one per [close] event: over any execution the
    number of [WebSocket.close] calls is at most the number of [close()]
    calls and the number of [setTimeout] calls at most the number of [close]
    events. *)
Theorem host_calls_follow_causes (inputs : list Input) (c c' : Config) :
  run inputs c = Some c' ->
  (socket_close_calls c' <= socket_close_calls c + count_inputs is_Close inputs)%nat /\
  (set_timeout_calls c' <= set_timeout_calls c + count_inputs is_EvClose inputs)%nat.
Proof.
  revert c; induction inputs as [|i inputs IH]; cbn; intros c H.
  - inversion H; subst. unfold count_inputs; cbn. lia.
  - destruct (step i c) as [c1|] eqn:E; [|discriminate].
    pose proof (IH c1 H) as G. pose proof (step_host_calls i c c1 E) as S.
    unfold count_inputs in *; cbn.
    destruct i; cbn in *; lia.
Qed.

Lemma host_calls_follow_causes_witness :
  (set_timeout_calls (connect "ws://a" (boot 5))
   <= set_timeout_calls (boot 5) + count_inputs is_EvClose [Connect "ws://a"])%nat.
Proof.
  refine (proj2 (host_calls_follow_causes [Connect "ws://a"] (boot 5) _ _)).
  reflexivity.
Defined.
